(** * simple-pubsub: the dispatcher and the vending-machine subscribers of [src/app.ts]

    A shallow embedding of [PublishSubscribeService], the four event classes,
    [Machine] and the four subscriber classes, followed by the properties of
    the specification that concern them.

    Modelling choices, all visible in the definitions below:
    - a JS [number] holding a stock level or a quantity is an integer [Z];
      [+] and [-] on doubles are exact when the operands and the result are
      safe integers ([safe_integer]), and the statements about the values
      of stock levels assume that they are (the events of the program carry
      1, 2, 3 or 5);
    - the object [subscribers : { [key: string]: ISubscriber[] }] is a finite
      map of its own properties, from strings to array references; the
      lookup of a name that the map does not hold and [Object.prototype]
      defines finds the inherited value ([Inherited]), which is truthy and
      has neither [push] nor [filter];
    - arrays of subscribers live in a store ([heap]) and are named by their
      index there: [push] updates the array in place, [filter] allocates a
      new one, and a running [forEach] keeps reading the array it started on;
    - [machines] is the one array of [Machine] objects that every subscriber
      of the program receives;
    - a thrown exception is the outcome [Throw], which carries the state
      reached when it was thrown;
    - [trace] is a ghost log of every call of [publish] and of every handler
      invocation; no definition reads it. *)

From Stdlib Require Import ZArith Bool Lia.
From stdpp Require Import base option list strings gmap.

Open Scope Z_scope.

(** * The program

    The definitions of this part follow [src/app.ts] declaration by
    declaration. *)

(** ** Events *)

Inductive IEvent :=
| MachineSaleEvent (_sold : Z) (_machineId : string)
| MachineRefillEvent (_refill : Z) (_machineId : string)
| LowStockWarningEvent (_machineId : string)
| StockLevelOkEvent (_machineId : string).

Definition type (e : IEvent) : string :=
  match e with
  | MachineSaleEvent _ _ => "sale"
  | MachineRefillEvent _ _ => "refill"
  | LowStockWarningEvent _ => "lowStockWarning"
  | StockLevelOkEvent _ => "stockLevelOk"
  end.

Definition machineId (e : IEvent) : string :=
  match e with
  | MachineSaleEvent _ m | MachineRefillEvent _ m
  | LowStockWarningEvent m | StockLevelOkEvent m => m
  end.

(** [getSoldQuantity] exists on [MachineSaleEvent] only: on an object of
    another class the property is [undefined] ([None]) and calling it is a
    [TypeError]. Likewise [getRefillQuantity]. *)
Definition getSoldQuantity (e : IEvent) : option Z :=
  match e with MachineSaleEvent q _ => Some q | _ => None end.

Definition getRefillQuantity (e : IEvent) : option Z :=
  match e with MachineRefillEvent q _ => Some q | _ => None end.

(** ** Machines *)

Record Machine := mkMachine {
  stockLevel : Z;
  id : string;
  lowStockWarningFired : bool;
  stockLevelOkFired : bool
}.

(** [new Machine(id)] *)
Definition new_Machine (i : string) : Machine :=
  {| stockLevel := 10; id := i;
     lowStockWarningFired := false; stockLevelOkFired := false |}.

Definition setLowStockWarningFired (value : bool) (m : Machine) : Machine :=
  {| stockLevel := stockLevel m; id := id m;
     lowStockWarningFired := value; stockLevelOkFired := stockLevelOkFired m |}.

Definition isLowStockWarningFired (m : Machine) : bool := lowStockWarningFired m.

Definition setStockLevelOkFired (value : bool) (m : Machine) : Machine :=
  {| stockLevel := stockLevel m; id := id m;
     lowStockWarningFired := lowStockWarningFired m; stockLevelOkFired := value |}.

Definition isStockLevelOkFired (m : Machine) : bool := stockLevelOkFired m.

(** the assignment [machine.stockLevel = v] *)
Definition setStockLevel (v : Z) (m : Machine) : Machine :=
  {| stockLevel := v; id := id m;
     lowStockWarningFired := lowStockWarningFired m;
     stockLevelOkFired := stockLevelOkFired m |}.

(** ** Subscribers, the store and outcomes *)

(** A subscriber object. The four classes of the program have no field of
    their own besides the shared [machines] and the service, so an object is
    its class and an object number [oid]; [Custom] stands for any other
    implementation of [ISubscriber], whose body is a script over the
    service's interface (see [Action]). Two values are equal exactly when
    they denote the same object, which is what [!==] compares. *)
Inductive ISubscriber :=
| MachineSaleSubscriber (oid : nat)
| MachineRefillSubscriber (oid : nat)
| LowStockWarningSubscriber (oid : nat)
| StockLevelOkSubscriber (oid : nat)
| Custom (oid : nat).

#[global] Instance ISubscriber_eq_dec : EqDecision ISubscriber.
Proof. solve_decision. Defined.

#[global] Instance IEvent_eq_dec : EqDecision IEvent.
Proof. solve_decision. Defined.

Inductive Exn :=
| TypeError
| Raised (tag : nat).

(** What a [Custom] subscriber can do when it handles an event: call the
    service, or throw. *)
Inductive Action :=
| DoSubscribe (kind : string) (handler : ISubscriber)
| DoUnsubscribe (kind : string) (handler : ISubscriber)
| DoPublish (event : IEvent)
| DoThrow (x : Exn).

(** Ghost observations. [Published c e]: [publish(e)] was entered, called
    by the handler [c] (or from outside, [None]). [Handled h e]: a delivery
    pass invoked [h.handle(e)]. *)
Inductive Obs :=
| Published (caller : option ISubscriber) (e : IEvent)
| Handled (h : ISubscriber) (e : IEvent).

Record World := mkWorld {
  machines : list Machine;
  subscribers : gmap string nat;
  heap : list (list ISubscriber);
  trace : list Obs
}.

Definition set_machines (ms : list Machine) (w : World) : World :=
  {| machines := ms; subscribers := subscribers w; heap := heap w; trace := trace w |}.

Definition record (o : Obs) (w : World) : World :=
  {| machines := machines w; subscribers := subscribers w; heap := heap w;
     trace := trace w ++ [o] |}.

Inductive Outcome :=
| Ok (w : World)
| Throw (x : Exn) (w : World)
| OutOfFuel.

Definition andThen (o : Outcome) (k : World -> Outcome) : Outcome :=
  match o with
  | Ok w => k w
  | _ => o
  end.

Notation "o >>> k" := (andThen o k) (at level 50, left associativity).

(** The state with which a call returned; [w0] when it did not return. *)
Definition returned (o : Outcome) (w0 : World) : World :=
  match o with
  | Ok w => w
  | _ => w0
  end.

(** [Array.prototype.findIndex]; [None] stands for [-1]. *)
Fixpoint findIndex {A} (p : A -> bool) (l : list A) : option nat :=
  match l with
  | [] => None
  | x :: l' => if p x then Some 0%nat else S <$> findIndex p l'
  end.

(** [this.machines.findIndex(machine => machine.id === event.machineId())] *)
Definition machineIndexOf (event : IEvent) (w : World) : option nat :=
  findIndex (fun machine => String.eqb (id machine) (machineId event)) (machines w).

(** [this.machines[i] = f(this.machines[i])], for the in-place updates of
    one machine's fields. *)
Definition update_machine (i : nat) (f : Machine -> Machine) (w : World) : World :=
  set_machines (alter f i (machines w)) w.

(** [this.machines[i]] read for a field: on [undefined] the property access
    is a [TypeError]. *)
Definition machineAt (i : nat) (w : World) (k : Machine -> Outcome) : Outcome :=
  match machines w !! i with
  | Some m => k m
  | None => Throw TypeError w
  end.

(** ** The four subscriber classes

    Each [handle] takes the [publish] of the [IPublishSubscribeService] its
    object was constructed with. *)

Module MachineSaleSubscriber.
Definition handle (publish : IEvent -> World -> Outcome)
    (event : IEvent) (w : World) : Outcome :=
  match machineIndexOf event w with
  | None => Ok w
  | Some machineIndex =>
    match getSoldQuantity event with
    | None => Throw TypeError w
    | Some soldQty =>
      let w :=
        update_machine machineIndex
          (fun m => setStockLevel (stockLevel m - soldQty) m) w in
      machineAt machineIndex w (fun m =>
        if stockLevel m <? 3
        then publish (LowStockWarningEvent (id m)) w
        else Ok w)
    end
  end.
End MachineSaleSubscriber.

Module MachineRefillSubscriber.
Definition handle (publish : IEvent -> World -> Outcome)
    (event : IEvent) (w : World) : Outcome :=
  match machineIndexOf event w with
  | None => Ok w
  | Some machineIndex =>
    machineAt machineIndex w (fun m0 =>
      let previousStockLevel := stockLevel m0 in
      match getRefillQuantity event with
      | None => Throw TypeError w
      | Some refillQty =>
        let w :=
          update_machine machineIndex
            (fun m => setStockLevel (stockLevel m + refillQty) m) w in
        machineAt machineIndex w (fun m =>
          if (previousStockLevel <? 3) && (3 <=? stockLevel m)
          then publish (StockLevelOkEvent (id m)) w
          else Ok w)
      end)
  end.
End MachineRefillSubscriber.

Module LowStockWarningSubscriber.
Definition handle (publish : IEvent -> World -> Outcome)
    (event : IEvent) (w : World) : Outcome :=
  match event with
  | MachineSaleEvent _ _ =>
    match machineIndexOf event w with
    | None => Ok w
    | Some machineIndex =>
      machineAt machineIndex w (fun m =>
        if (stockLevel m <? 3) && negb (isLowStockWarningFired m)
        then
          let w := update_machine machineIndex (setLowStockWarningFired true) w in
          machineAt machineIndex w (fun m =>
            publish (LowStockWarningEvent (id m)) w)
        else Ok w)
    end
  | _ => Ok w
  end.
End LowStockWarningSubscriber.

Module StockLevelOkSubscriber.
Definition handle (publish : IEvent -> World -> Outcome)
    (event : IEvent) (w : World) : Outcome :=
  match event with
  | MachineRefillEvent _ _ =>
    match machineIndexOf event w with
    | None => Ok w
    | Some machineIndex =>
      machineAt machineIndex w (fun m =>
        if (3 <=? stockLevel m) && negb (isStockLevelOkFired m)
        then
          let w := update_machine machineIndex (setStockLevelOkFired true) w in
          machineAt machineIndex w (fun m =>
            publish (StockLevelOkEvent (id m)) w)
        else Ok w)
    end
  | _ => Ok w
  end.
End StockLevelOkSubscriber.

(** ** The dispatcher *)

Module PublishSubscribeService.

(** [this.subscribers[kind] = arr], for a newly created array [arr] *)
Definition bind_new_array (kind : string) (arr : list ISubscriber) (w : World) : World :=
  {| machines := machines w;
     subscribers := <[kind := length (heap w)]> (subscribers w);
     heap := heap w ++ [arr];
     trace := trace w |}.

(** [this.subscribers[kind].push(handler)] on the array at [l] *)
Definition push (l : nat) (handler : ISubscriber) (w : World) : World :=
  {| machines := machines w;
     subscribers := subscribers w;
     heap := alter (fun arr => arr ++ [handler]) l (heap w);
     trace := trace w |}.

(** The names that an object literal inherits from [Object.prototype] (to
    which the program adds nothing). The registry is such an object, so a
    lookup of one of these names that finds no own property finds the
    inherited value, which is not an array (a function, or the prototype
    itself for "__proto__"). *)
Definition inherited_names : list string :=
  ["constructor"; "toString"; "toLocaleString"; "valueOf"; "hasOwnProperty";
   "isPrototypeOf"; "propertyIsEnumerable"; "__proto__";
   "__defineGetter__"; "__defineSetter__"; "__lookupGetter__"; "__lookupSetter__"].

Definition inherited (kind : string) : bool :=
  existsb (String.eqb kind) inherited_names.

(** What [this.subscribers[kind]] evaluates to: the array at [l], an
    inherited value, or [undefined]. *)
Inductive Slot := Own (l : nat) | Inherited | Undefined.

Definition get (kind : string) (w : World) : Slot :=
  match subscribers w !! kind with
  | Some l => Own l
  | None => if inherited kind then Inherited else Undefined
  end.

(** [subscribe(kind, handler)]. An inherited value is truthy, so no array is
    created for it, and it has no [push]: the call throws a [TypeError]. *)
Definition subscribe (kind : string) (handler : ISubscriber) (w : World) : Outcome :=
  let w :=
    match get kind w with
    | Undefined => bind_new_array kind [] w
    | _ => w
    end in
  match get kind w with
  | Own l => Ok (push l handler w)
  | _ => Throw TypeError w
  end.

(** [unsubscribe(kind, handler)]. An inherited value is truthy and has no
    [filter]: the call throws a [TypeError]. *)
Definition unsubscribe (kind : string) (handler : ISubscriber) (w : World) : Outcome :=
  match get kind w with
  | Own l =>
    match heap w !! l with
    | Some subscribers =>
      Ok (bind_new_array kind
            (filter (fun subscriber => subscriber ≠ handler) subscribers) w)
    | None => Ok w
    end
  | Inherited => Throw TypeError w
  | Undefined => Ok w
  end.

(** [Array.prototype.forEach] on the array at [l]: the length is read once,
    before the first call; each element is read from the array itself when
    its turn comes, and an index that holds nothing is skipped. [k] is the
    next index and [todo] the number of indices left. *)
Fixpoint forEach_from (callback : ISubscriber -> World -> Outcome)
    (l : nat) (k : nat) (todo : nat) (w : World) : Outcome :=
  match todo with
  | O => Ok w
  | S todo' =>
    match heap w !! l ≫= (fun arr => arr !! k) with
    | Some subscriber =>
      callback subscriber w >>> forEach_from callback l (S k) todo'
    | None => forEach_from callback l (S k) todo' w
    end
  end.

Definition forEach (callback : ISubscriber -> World -> Outcome)
    (l : nat) (w : World) : Outcome :=
  match heap w !! l with
  | Some arr => forEach_from callback l 0 (length arr) w
  | None => Ok w
  end.

Section Dispatch.
(** The bodies of the [Custom] subscribers: what object [oid] does on an
    event. *)
Variable script : nat -> IEvent -> list Action.

Definition run_action (publish : IEvent -> World -> Outcome)
    (a : Action) (w : World) : Outcome :=
  match a with
  | DoSubscribe kind handler => subscribe kind handler w
  | DoUnsubscribe kind handler => unsubscribe kind handler w
  | DoPublish event => publish event w
  | DoThrow x => Throw x w
  end.

Fixpoint run_script (publish : IEvent -> World -> Outcome)
    (acts : list Action) (w : World) : Outcome :=
  match acts with
  | [] => Ok w
  | a :: rest => run_action publish a w >>> run_script publish rest
  end.

(** [subscriber.handle(event)], by the class of [subscriber] *)
Definition handle (publish : option ISubscriber -> IEvent -> World -> Outcome)
    (subscriber : ISubscriber) (event : IEvent) (w : World) : Outcome :=
  let w := record (Handled subscriber event) w in
  let publish := publish (Some subscriber) in
  match subscriber with
  | MachineSaleSubscriber _ => MachineSaleSubscriber.handle publish event w
  | MachineRefillSubscriber _ => MachineRefillSubscriber.handle publish event w
  | LowStockWarningSubscriber _ => LowStockWarningSubscriber.handle publish event w
  | StockLevelOkSubscriber _ => StockLevelOkSubscriber.handle publish event w
  | Custom o => run_script publish (script o event) w
  end.

(** [publish(event)]. [fuel] bounds the depth of nested [publish] calls;
    [caller] is ghost and only goes to the trace. *)
Fixpoint publish (fuel : nat) (caller : option ISubscriber)
    (event : IEvent) (w : World) : Outcome :=
  match fuel with
  | O => OutOfFuel
  | S fuel' =>
    let w := record (Published caller event) w in
    match get (type event) w with
    | Own l => forEach (fun subscriber => handle (publish fuel') subscriber event) l w
    | Inherited => Throw TypeError w
    | Undefined => Ok w
    end
  end.
End Dispatch.

End PublishSubscribeService.

Import PublishSubscribeService.

(** ** The program's wiring and initial state *)

(** The machines [ms] and [new PublishSubscribeService()]. *)
Definition empty_world (ms : list Machine) : World :=
  {| machines := ms; subscribers := ∅; heap := []; trace := [] |}.

Definition saleSubscriber := MachineSaleSubscriber 0.

Definition refillSubscriber := MachineRefillSubscriber 1.

Definition lowStockWarningSubscriber := LowStockWarningSubscriber 2.

Definition stockLevelOkSubscriber := StockLevelOkSubscriber 3.

(** The state the program has built when it starts publishing: three
    machines and the four [subscribe] calls, with the kinds as written. *)
Definition program_world : World :=
  let w := empty_world [new_Machine "001"; new_Machine "002"; new_Machine "003"] in
  let w := returned (subscribe "sale" saleSubscriber w) w in
  let w := returned (subscribe "refill" refillSubscriber w) w in
  let w := returned (subscribe "low_stock_warning" lowStockWarningSubscriber w) w in
  returned (subscribe "stock_level_ok" stockLevelOkSubscriber w) w.

(** No [Custom] subscriber does anything. *)
Definition no_script : nat -> IEvent -> list Action := fun _ _ => [].

(** The wiring that section 4.3 of the specification describes, in which the
    two notification subscribers consume the sale and refill events. *)
Definition wired_world : World :=
  let w := empty_world [new_Machine "001"; new_Machine "002"; new_Machine "003"] in
  let w := returned (subscribe "sale" saleSubscriber w) w in
  let w := returned (subscribe "refill" refillSubscriber w) w in
  let w := returned (subscribe "sale" lowStockWarningSubscriber w) w in
  returned (subscribe "refill" stockLevelOkSubscriber w) w.

(** ** Runs

    A run is a sequence of calls made on the service from outside. A caller
    that catches an exception goes on from the state reached when it was
    thrown. *)

Inductive Op :=
| Publish (e : IEvent)
| Subscribe (kind : string) (handler : ISubscriber)
| Unsubscribe (kind : string) (handler : ISubscriber).

Definition exec_op (script : nat -> IEvent -> list Action) (fuel : nat)
    (op : Op) (w : World) : option World :=
  match op with
  | Publish e =>
    match publish script fuel None e w with
    | Ok w' | Throw _ w' => Some w'
    | OutOfFuel => None
    end
  | Subscribe kind handler =>
    match subscribe kind handler w with
    | Ok w' | Throw _ w' => Some w'
    | OutOfFuel => None
    end
  | Unsubscribe kind handler =>
    match unsubscribe kind handler w with
    | Ok w' | Throw _ w' => Some w'
    | OutOfFuel => None
    end
  end.

Fixpoint exec (script : nat -> IEvent -> list Action) (fuel : nat)
    (ops : list Op) (w : World) : option World :=
  match ops with
  | [] => Some w
  | op :: rest => exec_op script fuel op w ≫= exec script fuel rest
  end.

(** ** The event source

    [Math.random()] is an input: each function takes the values that its
    calls of [Math.random] return, in the order of the calls. Such a value is
    a finite double, hence a rational, and the comparisons with 0.5, 1 and 2
    are exact on it. *)

(** [x < y] on these values *)
Definition less (x y : QArith_base.Q) : bool := negb (QArith_base.Qle_bool y x).

(** [random] is the value of [Math.random() * 3]. *)
Definition randomMachine (random : QArith_base.Q) : string :=
  if less random (QArith_base.Qmake 1 1) then "001"
  else if less random (QArith_base.Qmake 2 1) then "002"
  else "003".

(** [random] is the first [Math.random()], [draw] the one compared with 0.5
    for the quantity, and [machine] the value of [Math.random() * 3] in the
    call of [randomMachine]. *)
Definition eventGenerator (random draw machine : QArith_base.Q) : IEvent :=
  if less random (QArith_base.Qmake 1 2) then
    let saleQty := if less draw (QArith_base.Qmake 1 2) then 1 else 2 in
    MachineSaleEvent saleQty (randomMachine machine)
  else
    let refillQty := if less draw (QArith_base.Qmake 1 2) then 3 else 5 in
    MachineRefillEvent refillQty (randomMachine machine).

(** [[1,2,3,4,5].map(i => eventGenerator())]: one event per triple of
    values drawn, in order (the program draws five triples). *)
Definition generate (draws : list (QArith_base.Q * QArith_base.Q * QArith_base.Q))
    : list IEvent :=
  (fun d => eventGenerator d.1.1 d.1.2 d.2) <$> draws.

(** ** The body of the program *)




(** * The vocabulary of the statements

    Views of a state, predicates on outcomes, and the relations between
    states that the proofs carry through a delivery. *)

(** ** Numbers *)

(** [Number.MAX_SAFE_INTEGER], 2^53 - 1. *)
Definition MAX_SAFE_INTEGER : Z := 9007199254740991.

(** An integer that a double holds exactly, as do its neighbours: a sum or a
    difference of safe integers that is a safe integer is computed without
    rounding. *)
Definition safe_integer (n : Z) : Prop :=
  - MAX_SAFE_INTEGER <= n <= MAX_SAFE_INTEGER.

(** ** Views of the state *)

(** The sequence of subscribers registered for [kind]. *)
Definition registered (kind : string) (w : World) : list ISubscriber :=
  default [] (subscribers w !! kind ≫= fun l => heap w !! l).

(** Every array reference of the registry names an array of the store, and
    no two kinds share an array. *)
Record wf (w : World) : Prop := {
  wf_bound : map_Forall (fun _ l => (l < length (heap w))%nat) (subscribers w);
  wf_noalias k k' l :
    subscribers w !! k = Some l -> subscribers w !! k' = Some l -> k = k'
}.

(** [after P o]: the state in which [o] ended, normally or by an exception,
    satisfies [P]. *)
Definition after (P : World -> Prop) (o : Outcome) : Prop :=
  match o with
  | Ok w | Throw _ w => P w
  | OutOfFuel => True
  end.

(** [done_after P o]: [o] is not [OutOfFuel], and the state in which it ended
    satisfies [P]. *)
Definition done_after (P : World -> Prop) (o : Outcome) : Prop :=
  match o with
  | Ok w | Throw _ w => P w
  | OutOfFuel => False
  end.

(** The delivery pass as the specification words it: over a snapshot (a
    list value) of the registered sequence. *)
Fixpoint deliver_snapshot (callback : ISubscriber -> World -> Outcome)
    (snapshot : list ISubscriber) (w : World) : Outcome :=
  match snapshot with
  | [] => Ok w
  | subscriber :: rest => callback subscriber w >>> deliver_snapshot callback rest
  end.

Definition publish_snapshot (script : nat -> IEvent -> list Action)
    (fuel : nat) (caller : option ISubscriber) (event : IEvent) (w : World) : Outcome :=
  match fuel with
  | O => OutOfFuel
  | S fuel' =>
    let w := record (Published caller event) w in
    deliver_snapshot (fun subscriber => handle script (publish script fuel') subscriber event)
      (registered (type event) w) w
  end.

(** The events that [publish] was called with, in order. *)
Definition published_events (tr : list Obs) : list IEvent :=
  omap (fun o => match o with Published _ e => Some e | Handled _ _ => None end) tr.

(** [h] is an object of one of the four classes of the program. *)
Definition is_app (h : ISubscriber) : bool :=
  match h with Custom _ => false | _ => true end.

(** No array of the store holds a [Custom] subscriber. *)
Definition app_only (w : World) : Prop :=
  Forall (Forall (fun h => is_app h = true)) (heap w).

(** The operation registers no [Custom] subscriber. *)
Definition app_op (op : Op) : bool :=
  match op with
  | Subscribe _ handler => is_app handler
  | _ => true
  end.

(** The action is a call of [subscribe] or of [unsubscribe] for a kind that
    is not an inherited name. *)
Definition registry_action (a : Action) : bool :=
  match a with
  | DoSubscribe kind _ | DoUnsubscribe kind _ => negb (inherited kind)
  | _ => false
  end.

(** [e] is one of the two derived events. *)
Definition is_notification (e : IEvent) : bool :=
  match e with
  | LowStockWarningEvent _ | StockLevelOkEvent _ => true
  | _ => false
  end.

Close Scope Z_scope.

(** ** The registry operations on a kind that is not an inherited name

    [subscribe_own] and [unsubscribe_own] give the state with which
    [subscribe] and [unsubscribe] return when the lookup of the kind does
    not meet an inherited value ([subscribe_returns], [unsubscribe_returns]). *)

Definition subscribe_own (kind : string) (handler : ISubscriber) (w : World) : World :=
  let w :=
    match subscribers w !! kind with
    | Some _ => w
    | None => bind_new_array kind [] w
    end in
  match subscribers w !! kind with
  | Some l => push l handler w
  | None => w
  end.

Definition unsubscribe_own (kind : string) (handler : ISubscriber) (w : World) : World :=
  match subscribers w !! kind with
  | Some l =>
    match heap w !! l with
    | Some subscribers =>
      bind_new_array kind
        (filter (fun subscriber => subscriber ≠ handler) subscribers) w
    | None => w
    end
  | None => w
  end.

(** ** Relations that every operation of the service respects *)

(** [Stable R]: [R] is a preorder on states that holds across a trace entry,
    any change of the machines, and a [subscribe] and an [unsubscribe] that
    return (one that throws leaves the state as it was); it then holds
    across [publish] with any subscribers ([publish_stable]). *)
Class Stable (R : relation World) := {
  stable_preorder :: PreOrder R;
  stable_record o w : R w (record o w);
  stable_machines ms w : R w (set_machines ms w);
  stable_subscribe k h w : R w (subscribe_own k h w);
  stable_unsubscribe k h w : R w (unsubscribe_own k h w)
}.

(** The store only grows: an array that exists stays where it is and keeps
    what it holds, possibly with more at its end. *)
Definition heap_le (w w' : World) : Prop :=
  forall l arr, heap w !! l = Some arr ->
    exists arr', heap w' !! l = Some arr' /\ arr `prefix_of` arr'.

(** Well-formedness of the registry is kept. *)
Definition wf_kept (w w' : World) : Prop := wf w -> wf w'.

(** ** What the four subscribers and the dispatcher do to a state

    Every state change made while the dispatcher delivers to subscribers of
    the four classes of the program is one of the [step]s below. A [Published]
    observation made by a latch subscriber for its own notification comes
    together with the setting of the latch, in [step_fired]. *)

(** The two latches of a machine, with the flag, the setter, the
    notification and the subscriber class of each. *)
Inductive Latch := LowStock | StockOk.

#[global] Instance Latch_eq_dec : EqDecision Latch.
Proof. solve_decision. Defined.

Definition fired (L : Latch) (m : Machine) : bool :=
  match L with
  | LowStock => isLowStockWarningFired m
  | StockOk => isStockLevelOkFired m
  end.

Definition set_fired (L : Latch) : Machine -> Machine :=
  match L with
  | LowStock => setLowStockWarningFired true
  | StockOk => setStockLevelOkFired true
  end.

Definition notification (L : Latch) (machineId : string) : IEvent :=
  match L with
  | LowStock => LowStockWarningEvent machineId
  | StockOk => StockLevelOkEvent machineId
  end.

Definition latch_subscriber (L : Latch) (o : nat) : ISubscriber :=
  match L with
  | LowStock => LowStockWarningSubscriber o
  | StockOk => StockLevelOkSubscriber o
  end.

(** [notified L s o]: the observation [o] is a [publish] of latch [L]'s
    notification for machine id [s], called by a subscriber of [L]'s class. *)
Definition notified (L : Latch) (s : string) (o : Obs) : bool :=
  match L, o with
  | LowStock, Published (Some (LowStockWarningSubscriber _)) (LowStockWarningEvent s') =>
    bool_decide (s' = s)
  | StockOk, Published (Some (StockLevelOkSubscriber _)) (StockLevelOkEvent s') =>
    bool_decide (s' = s)
  | _, _ => false
  end.

(** [counted o]: [o] is [notified] for some latch and some machine id. *)
Definition counted (o : Obs) : bool :=
  match o with
  | Published (Some (LowStockWarningSubscriber _)) (LowStockWarningEvent _)
  | Published (Some (StockLevelOkSubscriber _)) (StockLevelOkEvent _) => true
  | _ => false
  end.

(** How many times the subscribers of latch [L] have published its
    notification for machine id [s]. *)
Definition notifications (L : Latch) (s : string) (tr : list Obs) : nat :=
  length (filter (fun o => notified L s o = true) tr).

(** The machine that [findIndex] selects for id [s]. *)
Definition machine_of (s : string) (ms : list Machine) : option Machine :=
  findIndex (fun machine => String.eqb (id machine) s) ms ≫= fun i => ms !! i.

(** 1 when the machine selected for [s] has latch [L] set, else 0. *)
Definition fired_count (L : Latch) (s : string) (ms : list Machine) : nat :=
  match machine_of s ms with
  | Some m => if fired L m then 1 else 0
  | None => 0
  end.

(** The kinds of step: a handler is invoked; [publish] is entered (by a
    caller that is not a latch subscriber publishing its own notification);
    a stock level is assigned; a latch subscriber sets its latch and
    publishes. *)
Inductive Label := LHandled | LPublished | LStock | LFired (L : Latch).

Inductive step : Label -> World -> World -> Prop :=
| step_handled h e w :
    step LHandled w (record (Handled h e) w)
| step_published c e w :
    counted (Published c e) = false ->
    step LPublished w (record (Published c e) w)
| step_stock i f w :
    (forall m, exists v, f m = setStockLevel v m) ->
    step LStock w (update_machine i f w)
| step_fired L o i m w :
    findIndex (fun machine => String.eqb (id machine) (id m)) (machines w) = Some i ->
    machines w !! i = Some m ->
    fired L m = false ->
    step (LFired L) w
      (record (Published (Some (latch_subscriber L o)) (notification L (id m)))
         (update_machine i (set_fired L) w)).

(** Sequences of steps whose labels are all [allowed]. *)
Definition steps (allowed : Label -> bool) : relation World :=
  rtc (fun w w' => exists lbl, allowed lbl = true /\ step lbl w w').

(** The labels of the steps that the delivery of [e] can take. *)
Definition allowed_for (e : IEvent) (lbl : Label) : bool :=
  match lbl, e with
  | LHandled, _ | LPublished, _ => true
  | LStock, (MachineSaleEvent _ _ | MachineRefillEvent _ _) => true
  | LFired LowStock, MachineSaleEvent _ _ => true
  | LFired StockOk, MachineRefillEvent _ _ => true
  | _, _ => false
  end.

(** The steps of a delivery of a notification, once [publish] is entered. *)
Definition only_handled (lbl : Label) : bool :=
  match lbl with LHandled => true | _ => false end.

(** Machines keep their place and their id, and a latch that is set stays
    set. *)
Definition latches_kept (w w' : World) : Prop :=
  id <$> machines w' = id <$> machines w /\
  forall L i m m',
    machines w !! i = Some m -> machines w' !! i = Some m' ->
    fired L m = true -> fired L m' = true.

(** Latch [L] of every machine is as it was. *)
Definition latch_unchanged (L : Latch) (w w' : World) : Prop :=
  fired L <$> machines w' = fired L <$> machines w.

(** The registry and the store are as they were. *)
Definition registry_unchanged (w w' : World) : Prop :=
  heap w' = heap w /\ subscribers w' = subscribers w.

(** The subscribers of [L] have published at most as many notifications for
    each machine id as its latch allows: none before it is set, one after. *)
Definition notified_once (L : Latch) (w : World) : Prop :=
  forall s, notifications L s (trace w) <= fired_count L s (machines w).

(** The bound on notifications is kept. *)
Definition once_kept (L : Latch) (w w' : World) : Prop :=
  notified_once L w -> notified_once L w'.

(** What a run keeps: the machines' places and ids, the latches that are
    set, the bound on notifications, and the absence of [Custom]
    subscribers. *)
Definition run_kept (w w' : World) : Prop :=
  latches_kept w w' /\
  (forall L, once_kept L w w') /\
  (app_only w -> app_only w').

(** ** Stock accounting *)

(** What the event adds to the stock of the machine with id [s]. *)
Definition net_change (s : string) (e : IEvent) : Z :=
  match e with
  | MachineSaleEvent q s' => if String.eqb s s' then (- q)%Z else 0%Z
  | MachineRefillEvent q s' => if String.eqb s s' then q else 0%Z
  | _ => 0%Z
  end.

Definition net_changes (s : string) (events : list IEvent) : Z :=
  foldr (fun e acc => (net_change s e + acc)%Z) 0%Z events.

(** The quantities of the sales and refills among [events], added up in
    absolute value. *)
Definition volume (events : list IEvent) : Z :=
  foldr (fun e acc =>
           (match e with
            | MachineSaleEvent q _ | MachineRefillEvent q _ => Z.abs q
            | _ => 0
            end + acc)%Z) 0%Z events.

(** The machines after the event, when the sale and refill subscribers each
    receive it once and nothing else changes a machine. *)
Definition apply_event (e : IEvent) (ms : list Machine) : list Machine :=
  match e with
  | MachineSaleEvent q s =>
    match findIndex (fun machine => String.eqb (id machine) s) ms with
    | Some i => alter (fun m => setStockLevel (stockLevel m - q) m) i ms
    | None => ms
    end
  | MachineRefillEvent q s =>
    match findIndex (fun machine => String.eqb (id machine) s) ms with
    | Some i => alter (fun m => setStockLevel (stockLevel m + q) m) i ms
    | None => ms
    end
  | _ => ms
  end.

(** The three machines of the program with stocks [a], [b], [c] and no latch
    set. *)
Definition three_machines (a b c : Z) : list Machine :=
  [mkMachine a "001" false false; mkMachine b "002" false false;
   mkMachine c "003" false false].

(** [w] has the registry and the store of [w0]. *)
Definition same_registry (w0 w : World) : Prop :=
  subscribers w = subscribers w0 /\ heap w = heap w0.

(** The observation is an invocation of a latch subscriber. *)
Definition latch_subscriber_invoked (o : Obs) : bool :=
  match o with
  | Handled (LowStockWarningSubscriber _) _
  | Handled (StockLevelOkSubscriber _) _ => true
  | _ => false
  end.

(** The [publish] calls that subscriber [h] made, in order. *)
Definition published_by (h : ISubscriber) (tr : list Obs) : list IEvent :=
  omap (fun o => match o with
                 | Published (Some h') e => if decide (h' = h) then Some e else None
                 | _ => None
                 end) tr.

(** ** Concrete states and subscribers *)

(** The reading of C4 as the specification states it, for runs of the wiring
    of section 4.3: a delivery that carries a machine's stock across the
    threshold leaves the opposite latch of that machine cleared. *)
Definition crossing_clears_opposite_latch : Prop :=
  forall (ops : list Op) (e : IEvent) (w w' : World) (i : nat) (m m' : Machine),
    exec no_script 2 ops wired_world = Some w ->
    publish no_script 2 None e w = Ok w' ->
    machines w !! i = Some m -> machines w' !! i = Some m' ->
    ((stockLevel m < 3 /\ 3 <= stockLevel m')%Z -> lowStockWarningFired m' = false) /\
    ((3 <= stockLevel m /\ stockLevel m' < 3)%Z -> stockLevelOkFired m' = false).

(** The wiring of section 4.3 after the sale of 8 on machine "001", and then
    after the refill of 5. *)
Definition after_sale_of_8 : World :=
  default wired_world
    (exec no_script 2 [Publish (MachineSaleEvent 8 "001")] wired_world).

Definition then_refill_of_5 : World :=
  default after_sale_of_8
    (exec no_script 2 [Publish (MachineRefillEvent 5 "001")] after_sale_of_8).

(** A subscriber that, when it handles an event, unsubscribes itself from
    "sale" and subscribes another object there. *)
Definition rewiring_script (o : nat) (e : IEvent) : list Action :=
  match o with
  | O => [DoUnsubscribe "sale" (Custom 0); DoSubscribe "sale" (Custom 2)]
  | _ => []
  end.

Definition rewiring_world : World :=
  let w := empty_world [] in
  let w := returned (subscribe "sale" (Custom 0) w) w in
  returned (subscribe "sale" (Custom 1) w) w.

(** A subscriber that throws, registered between two others. *)
Definition throwing_script (o : nat) (e : IEvent) : list Action :=
  match o with
  | O => [DoThrow (Raised 7)]
  | _ => []
  end.

Definition throwing_world : World :=
  let w := empty_world [new_Machine "001"] in
  let w := returned (subscribe "sale" saleSubscriber w) w in
  let w := returned (subscribe "sale" (Custom 0) w) w in
  returned (subscribe "sale" (Custom 1) w) w.

(** The state in which [Custom 0] is invoked on the sale of 1: the sale
    subscriber has run. *)
Definition before_throw : World :=
  {| machines := [mkMachine 9 "001" false false];
     subscribers := subscribers throwing_world;
     heap := heap throwing_world;
     trace := [Published None (MachineSaleEvent 1 "001");
               Handled saleSubscriber (MachineSaleEvent 1 "001")] |}.

(** * Proofs

    Lemmas first, by subject; each property of the specification is a
    [Theorem] with its claim number in the comment above it. *)

(** ** Outcomes *)

Lemma after_mono (P Q : World -> Prop) o :
  (forall w, P w -> Q w) -> after P o -> after Q o.
Proof. destruct o; simpl; auto. Qed.

Lemma after_andThen (P Q : World -> Prop) o k :
  after P o ->
  (forall w, P w -> Q w) ->
  (forall w, P w -> after Q (k w)) ->
  after Q (o >>> k).
Proof. destruct o; simpl; auto. Qed.

Lemma andThen_ext (P : World -> Prop) o k k' :
  after P o -> (forall w, P w -> k w = k' w) -> o >>> k = o >>> k'.
Proof. destruct o; simpl; auto. Qed.

(** ** Lookups in the registry and inherited names *)

Lemma inherited_type e : inherited (type e) = false.
Proof. by destruct e. Qed.

Lemma get_type e w :
  get (type e) w =
  match subscribers w !! type e with Some l => Own l | None => Undefined end.
Proof. unfold get. by rewrite inherited_type. Qed.

(** [subscribe] returns with the state of [subscribe_own] unless the kind
    is an inherited name with no array of its own, and then it throws. *)
Lemma subscribe_spec k h w :
  subscribe k h w =
  if inherited k && bool_decide (subscribers w !! k = None)
  then Throw TypeError w
  else Ok (subscribe_own k h w).
Proof.
  unfold subscribe, subscribe_own, get.
  destruct (subscribers w !! k) as [l|] eqn:E; simpl.
  - rewrite E, andb_false_r. done.
  - destruct (inherited k); simpl.
    + by rewrite E.
    + by rewrite lookup_insert_eq.
Qed.

Lemma unsubscribe_spec k h w :
  unsubscribe k h w =
  if inherited k && bool_decide (subscribers w !! k = None)
  then Throw TypeError w
  else Ok (unsubscribe_own k h w).
Proof.
  unfold unsubscribe, unsubscribe_own, get.
  destruct (subscribers w !! k) as [l|] eqn:E; simpl.
  - rewrite andb_false_r. by destruct (heap w !! l).
  - by destruct (inherited k).
Qed.

Lemma subscribe_returns k h w :
  inherited k = false -> subscribe k h w = Ok (subscribe_own k h w).
Proof. intros H. by rewrite subscribe_spec, H. Qed.

Lemma unsubscribe_returns k h w :
  inherited k = false -> unsubscribe k h w = Ok (unsubscribe_own k h w).
Proof. intros H. by rewrite unsubscribe_spec, H. Qed.

Lemma subscribe_after (P : World -> Prop) k h w :
  P w -> P (subscribe_own k h w) -> after P (subscribe k h w).
Proof. intros ? ?. rewrite subscribe_spec. by destruct (_ && _). Qed.

Lemma unsubscribe_after (P : World -> Prop) k h w :
  P w -> P (unsubscribe_own k h w) -> after P (unsubscribe k h w).
Proof. intros ? ?. rewrite unsubscribe_spec. by destruct (_ && _). Qed.

(** ** Relations that every operation of the service respects *)

Section StableRelations.
Context (R : relation World) `{!Stable R}.
Variable script : nat -> IEvent -> list Action.

Lemma forEach_from_stable callback l w0 :
  (forall h w, R w0 w -> after (R w) (callback h w)) ->
  forall todo k w, R w0 w -> after (R w0) (forEach_from callback l k todo w).
Proof.
  intros Hcb. induction todo as [|todo IH]; intros k w Hw; simpl; [done|].
  destruct (heap w !! l ≫= _) as [h|]; [|by apply IH].
  eapply after_andThen with (P := R w0).
  - eapply after_mono; [|by apply Hcb]. intros w' ?. by etrans.
  - done.
  - intros w' ?. by apply IH.
Qed.

Lemma forEach_stable callback l w :
  (forall h w', R w w' -> after (R w') (callback h w')) ->
  after (R w) (forEach callback l w).
Proof.
  intros Hcb. unfold forEach. destruct (heap w !! l); simpl; [|done].
  by apply forEach_from_stable.
Qed.

Lemma machineAt_stable i w0 w k :
  R w0 w -> (forall m, after (R w0) (k m)) -> after (R w0) (machineAt i w k).
Proof. intros ? Hk. unfold machineAt. destruct (machines w !! i); simpl; auto. Qed.

Lemma update_machine_stable i f w : R w (update_machine i f w).
Proof. apply stable_machines. Qed.

Section Handlers.
Variable pub : option ISubscriber -> IEvent -> World -> Outcome.
Hypothesis pub_stable : forall c e w, after (R w) (pub c e w).

Lemma pub_stable_from w0 c e w : R w0 w -> after (R w0) (pub c e w).
Proof. intros ?. eapply after_mono; [|apply pub_stable]. intros ? ?. by etrans. Qed.

Lemma run_script_stable c acts :
  forall w, after (R w) (run_script (pub c) acts w).
Proof.
  induction acts as [|a acts IH]; intros w; simpl; [done|].
  eapply after_andThen with (P := R w).
  - destruct a; simpl;
      [apply subscribe_after; [done | apply stable_subscribe]
      |apply unsubscribe_after; [done | apply stable_unsubscribe]
      |apply pub_stable | done].
  - done.
  - intros w' ?. eapply after_mono; [|apply IH]. intros ? ?. by etrans.
Qed.

Lemma handle_stable h e w : after (R w) (handle script pub h e w).
Proof.
  unfold handle.
  assert (R w (record (Handled h e) w)) as Hrec by apply stable_record.
  revert Hrec. generalize (record (Handled h e) w). intros w1 Hw1.
  destruct h as [o|o|o|o|o].
  - unfold MachineSaleSubscriber.handle.
    destruct (machineIndexOf e w1) as [i|]; [|done].
    destruct (getSoldQuantity e) as [q|]; [|done].
    assert (R w (update_machine i (fun m => setStockLevel (stockLevel m - q) m) w1))
      by (etrans; [done | apply update_machine_stable]).
    apply machineAt_stable; [done|]. intros m.
    destruct (stockLevel m <? 3)%Z; [by apply pub_stable_from | done].
  - unfold MachineRefillSubscriber.handle.
    destruct (machineIndexOf e w1) as [i|]; [|done].
    apply machineAt_stable; [done|]. intros m0.
    destruct (getRefillQuantity e) as [q|]; [|done].
    assert (R w (update_machine i (fun m => setStockLevel (stockLevel m + q) m) w1))
      by (etrans; [done | apply update_machine_stable]).
    apply machineAt_stable; [done|]. intros m.
    destruct (_ && _); [by apply pub_stable_from | done].
  - unfold LowStockWarningSubscriber.handle.
    destruct e; try done.
    destruct (machineIndexOf _ w1) as [i|]; [|done].
    apply machineAt_stable; [done|]. intros m0.
    destruct (_ && _); [|done].
    assert (R w (update_machine i (setLowStockWarningFired true) w1))
      by (etrans; [done | apply update_machine_stable]).
    apply machineAt_stable; [done|]. intros m. by apply pub_stable_from.
  - unfold StockLevelOkSubscriber.handle.
    destruct e; try done.
    destruct (machineIndexOf _ w1) as [i|]; [|done].
    apply machineAt_stable; [done|]. intros m0.
    destruct (_ && _); [|done].
    assert (R w (update_machine i (setStockLevelOkFired true) w1))
      by (etrans; [done | apply update_machine_stable]).
    apply machineAt_stable; [done|]. intros m. by apply pub_stable_from.
  - eapply after_mono; [|apply run_script_stable]. intros ? ?. by etrans.
Qed.
End Handlers.

Lemma publish_stable fuel : forall c e w, after (R w) (publish script fuel c e w).
Proof.
  induction fuel as [|fuel IH]; intros c e w; simpl; [done|].
  assert (R w (record (Published c e) w)) as Hrec by apply stable_record.
  rewrite get_type. destruct (subscribers _ !! type e) as [l|]; [|done].
  eapply after_mono; [|apply forEach_stable].
  - intros ? ?. by etrans.
  - intros h w' _. by apply handle_stable.
Qed.
End StableRelations.

(** ** The store only grows

    [push] extends an array at its end, [filter] allocates: an array that
    exists stays where it is and keeps what it holds. *)

Lemma heap_le_same w w' : heap w' = heap w -> heap_le w w'.
Proof. intros E l arr ?. exists arr. by rewrite E. Qed.

Lemma heap_le_bind_new_array k arr w : heap_le w (bind_new_array k arr w).
Proof. intros l a H. exists a. split; [|done]. simpl. by apply lookup_app_l_Some. Qed.

Lemma heap_le_push l h w : heap_le w (push l h w).
Proof.
  intros l' a H. simpl. destruct (decide (l = l')) as [->|Hne].
  - exists (a ++ [h]). rewrite list_lookup_alter_eq, H. split; [done|].
    by apply prefix_app_r.
  - exists a. by rewrite list_lookup_alter_ne.
Qed.

#[global] Instance heap_le_preorder : PreOrder heap_le.
Proof.
  split.
  - intros w. by apply heap_le_same.
  - intros w1 w2 w3 H12 H23 l a H.
    destruct (H12 _ _ H) as (a2 & H2 & P2).
    destruct (H23 _ _ H2) as (a3 & H3 & P3).
    exists a3. split; [done|]. by etrans.
Qed.

Lemma heap_le_subscribe k h w : heap_le w (subscribe_own k h w).
Proof.
  unfold subscribe_own. destruct (subscribers w !! k) as [l|] eqn:E.
  - rewrite E. apply heap_le_push.
  - destruct (subscribers (bind_new_array k [] w) !! k).
    + etrans; [apply heap_le_bind_new_array | apply heap_le_push].
    + apply heap_le_bind_new_array.
Qed.

Lemma heap_le_unsubscribe k h w : heap_le w (unsubscribe_own k h w).
Proof.
  unfold unsubscribe_own. destruct (subscribers w !! k) as [l|]; [|done].
  destruct (heap w !! l); [apply heap_le_bind_new_array | done].
Qed.

#[global] Instance heap_le_stable : Stable heap_le.
Proof.
  split.
  - apply _.
  - intros. by apply heap_le_same.
  - intros. by apply heap_le_same.
  - apply heap_le_subscribe.
  - apply heap_le_unsubscribe.
Qed.

(** ** Well-formed registries *)

Lemma wf_empty_world ms : wf (empty_world ms).
Proof. split; [apply map_Forall_empty | simpl; intros k k' l H; by rewrite lookup_empty in H]. Qed.

Lemma wf_same w w' :
  subscribers w' = subscribers w -> length (heap w') = length (heap w) -> wf w -> wf w'.
Proof. intros Es El [Hb Ha]. split; rewrite ?Es, ?El; done. Qed.

Lemma wf_lookup w k l :
  wf w -> subscribers w !! k = Some l -> exists arr, heap w !! l = Some arr.
Proof.
  intros [Hb _] H. apply (map_Forall_lookup_1 _ _ _ _ Hb) in H.
  by apply lookup_lt_is_Some_2 in H.
Qed.

Lemma wf_bind_new_array k arr w : wf w -> wf (bind_new_array k arr w).
Proof.
  intros [Hb Ha]. split; simpl.
  - rewrite length_app. simpl.
    apply map_Forall_insert_2; [lia|].
    eapply map_Forall_impl; [done|]. simpl. intros. lia.
  - intros k1 k2 l. rewrite !lookup_insert.
    repeat case_decide; subst; try done.
    + intros [= <-] H2. apply (map_Forall_lookup_1 _ _ _ _ Hb) in H2. lia.
    + intros H1 [= <-]. apply (map_Forall_lookup_1 _ _ _ _ Hb) in H1. lia.
    + apply Ha.
Qed.

Lemma wf_push l h w : wf w -> wf (push l h w).
Proof. apply wf_same; [done|]. simpl. apply length_alter. Qed.

Lemma wf_subscribe k h w : wf w -> wf (subscribe_own k h w).
Proof.
  intros H. unfold subscribe_own. destruct (subscribers w !! k) as [l|] eqn:E.
  - rewrite E. by apply wf_push.
  - destruct (subscribers (bind_new_array k [] w) !! k);
      [apply wf_push|]; by apply wf_bind_new_array.
Qed.

Lemma wf_unsubscribe k h w : wf w -> wf (unsubscribe_own k h w).
Proof.
  intros H. unfold unsubscribe_own. destruct (subscribers w !! k) as [l|]; [|done].
  destruct (heap w !! l); [by apply wf_bind_new_array | done].
Qed.

#[global] Instance wf_kept_stable : Stable wf_kept.
Proof.
  split.
  - split; unfold wf_kept; [intros ?; auto | intros ? ? ?; auto].
  - intros o w. unfold wf_kept. by apply wf_same.
  - intros ms w. unfold wf_kept. by apply wf_same.
  - intros k h w. unfold wf_kept. apply wf_subscribe.
  - intros k h w. unfold wf_kept. apply wf_unsubscribe.
Qed.

(** ** [forEach] on the live array is a pass over the snapshot *)

Lemma andThen_Ok w k : Ok w >>> k = k w.
Proof. done. Qed.

Lemma forEach_from_snapshot callback l arr :
  (forall h w, after (heap_le w) (callback h w)) ->
  forall todo k w arr',
    heap w !! l = Some arr' -> arr `prefix_of` arr' ->
    k + todo = length arr ->
    forEach_from callback l k todo w = deliver_snapshot callback (drop k arr) w.
Proof.
  intros Hcb. induction todo as [|todo IH]; intros k w arr' Hl Hpre Hlen; simpl.
  - rewrite drop_ge by lia. done.
  - destruct (arr !! k) as [h|] eqn:Hk.
    2:{ apply lookup_ge_None in Hk. lia. }
    rewrite Hl. simpl. rewrite (prefix_lookup_Some _ _ _ _ Hk Hpre).
    rewrite (drop_S _ _ _ Hk). simpl.
    eapply andThen_ext; [apply Hcb|].
    intros w' Hle. destruct (Hle _ _ Hl) as (arr'' & Hl' & Hpre').
    eapply IH; [done | by etrans | lia].
Qed.

Section Snapshot.
Variable script : nat -> IEvent -> list Action.

Lemma handle_heap_le fuel h e w :
  after (heap_le w) (handle script (publish script fuel) h e w).
Proof. apply handle_stable; [apply _|]. intros. apply publish_stable. apply _. Qed.

Lemma publish_eq_snapshot fuel c e w :
  publish script fuel c e w = publish_snapshot script fuel c e w.
Proof.
  destruct fuel as [|fuel]; simpl; [done|].
  rewrite get_type. unfold registered, forEach. simpl.
  destruct (subscribers w !! type e) as [l|]; simpl; [|done].
  destruct (heap w !! l) as [arr|] eqn:Hl; simpl; [|done].
  erewrite forEach_from_snapshot with (arr := arr); [done | | done | done | done].
  intros h w'. apply handle_heap_le.
Qed.
End Snapshot.

(** ** The registry after [subscribe] and [unsubscribe] *)

Lemma registered_bind_new_array_eq k arr w :
  registered k (bind_new_array k arr w) = arr.
Proof.
  unfold registered. simpl. rewrite lookup_insert_eq. simpl.
  by rewrite list_lookup_middle.
Qed.

Lemma registered_bind_new_array_ne k k' arr w :
  wf w -> k' ≠ k -> registered k' (bind_new_array k arr w) = registered k' w.
Proof.
  intros Hwf Hne. unfold registered. simpl. rewrite lookup_insert_ne by done.
  destruct (subscribers w !! k') as [l|] eqn:E; simpl; [|done].
  destruct (wf_lookup _ _ _ Hwf E) as [a Ha]. rewrite Ha.
  by rewrite (lookup_app_l_Some _ _ _ _ Ha).
Qed.

Lemma registered_push_eq k l h w :
  subscribers w !! k = Some l ->
  registered k (push l h w) = default [] ((fun arr => arr ++ [h]) <$> heap w !! l).
Proof.
  intros E. unfold registered. simpl. rewrite E. simpl.
  rewrite list_lookup_alter_eq. by destruct (heap w !! l).
Qed.

Lemma registered_push_ne k k' l h w :
  wf w -> subscribers w !! k = Some l -> k' ≠ k ->
  registered k' (push l h w) = registered k' w.
Proof.
  intros Hwf E Hne. unfold registered. simpl.
  destruct (subscribers w !! k') as [l'|] eqn:E'; simpl; [|done].
  rewrite list_lookup_alter_ne; [done|].
  intros ->. apply Hne. by eapply wf_noalias.
Qed.

Lemma registered_subscribe_eq k h w :
  wf w -> registered k (subscribe_own k h w) = registered k w ++ [h].
Proof.
  intros Hwf. unfold subscribe_own. destruct (subscribers w !! k) as [l|] eqn:E.
  - rewrite E. rewrite (registered_push_eq _ _ _ _ E).
    unfold registered. rewrite E. simpl.
    destruct (wf_lookup _ _ _ Hwf E) as [a ->]. done.
  - assert (subscribers (bind_new_array k [] w) !! k = Some (length (heap w))) as E'
      by (simpl; apply lookup_insert_eq).
    rewrite E'. rewrite (registered_push_eq _ _ _ _ E'). simpl.
    rewrite list_lookup_middle by done. unfold registered. by rewrite E.
Qed.

Lemma registered_subscribe_ne k k' h w :
  wf w -> k' ≠ k -> registered k' (subscribe_own k h w) = registered k' w.
Proof.
  intros Hwf Hne. unfold subscribe_own. destruct (subscribers w !! k) as [l|] eqn:E.
  - rewrite E. by eapply registered_push_ne.
  - assert (subscribers (bind_new_array k [] w) !! k = Some (length (heap w))) as E'
      by (simpl; apply lookup_insert_eq).
    rewrite E'. rewrite (registered_push_ne k k'); [| by apply wf_bind_new_array | done..].
    by apply registered_bind_new_array_ne.
Qed.

Lemma registered_unsubscribe_eq k h w :
  registered k (unsubscribe_own k h w) = filter (fun s => s ≠ h) (registered k w).
Proof.
  unfold unsubscribe_own. destruct (subscribers w !! k) as [l|] eqn:E.
  - destruct (heap w !! l) as [arr|] eqn:El.
    + rewrite registered_bind_new_array_eq. unfold registered. by rewrite E; simpl; rewrite El.
    + unfold registered. by rewrite E; simpl; rewrite El.
  - unfold registered. by rewrite E.
Qed.

Lemma registered_unsubscribe_ne k k' h w :
  wf w -> k' ≠ k -> registered k' (unsubscribe_own k h w) = registered k' w.
Proof.
  intros Hwf Hne. unfold unsubscribe_own. destruct (subscribers w !! k) as [l|]; [|done].
  destruct (heap w !! l); [by apply registered_bind_new_array_ne | done].
Qed.

Lemma machines_subscribe k h w : machines (subscribe_own k h w) = machines w.
Proof.
  unfold subscribe_own. destruct (subscribers w !! k) as [l|] eqn:E.
  - by rewrite E.
  - by destruct (subscribers (bind_new_array k [] w) !! k).
Qed.

Lemma trace_subscribe k h w : trace (subscribe_own k h w) = trace w.
Proof.
  unfold subscribe_own. destruct (subscribers w !! k) as [l|] eqn:E.
  - by rewrite E.
  - by destruct (subscribers (bind_new_array k [] w) !! k).
Qed.

Lemma machines_unsubscribe k h w : machines (unsubscribe_own k h w) = machines w.
Proof.
  unfold unsubscribe_own. destruct (subscribers w !! k) as [l|]; [|done].
  by destruct (heap w !! l).
Qed.

Lemma trace_unsubscribe k h w : trace (unsubscribe_own k h w) = trace w.
Proof.
  unfold unsubscribe_own. destruct (subscribers w !! k) as [l|]; [|done].
  by destruct (heap w !! l).
Qed.

Lemma filter_ne_absent (h : ISubscriber) (l : list ISubscriber) :
  h ∉ l -> filter (fun s => s ≠ h) l = l.
Proof.
  induction l as [|x l IH]; [done|]. rewrite not_elem_of_cons. intros [Hx Hl].
  rewrite filter_cons_True by done. by rewrite IH.
Qed.

Lemma filter_ne_gone (h : ISubscriber) (l : list ISubscriber) : h ∉ filter (fun s => s ≠ h) l.
Proof. rewrite list_elem_of_filter. tauto. Qed.

(** ** Delivery passes *)

Lemma deliver_snapshot_app callback l1 l2 w :
  deliver_snapshot callback (l1 ++ l2) w =
  deliver_snapshot callback l1 w >>> deliver_snapshot callback l2.
Proof.
  revert w. induction l1 as [|h l1 IH]; intros w; simpl; [done|].
  destruct (callback h w); simpl; auto.
Qed.

Lemma deliver_snapshot_Throw callback l : forall w x w',
  deliver_snapshot callback l w = Throw x w' ->
  exists pre h post w1,
    l = pre ++ h :: post /\
    deliver_snapshot callback pre w = Ok w1 /\
    callback h w1 = Throw x w'.
Proof.
  induction l as [|h l IH]; intros w x w' H; simpl in H; [done|].
  destruct (callback h w) as [w1|x1 w1|] eqn:Hh; simpl in H; [| |done].
  - destruct (IH _ _ _ H) as (pre & h' & post & w2 & -> & Hpre & Hthrow).
    exists (h :: pre), h', post, w2. simpl. rewrite Hh. done.
  - injection H as -> ->. by exists [], h, l, w.
Qed.

Lemma deliver_snapshot_Ok callback l :
  (forall h w, h ∈ l -> exists w', callback h w = Ok w') ->
  forall w, exists w', deliver_snapshot callback l w = Ok w'.
Proof.
  induction l as [|h l IH]; intros Hcb w; simpl; [by eexists|].
  destruct (Hcb h w) as [w1 ->]; [by left|]. simpl.
  apply IH. intros h' w2 ?. apply Hcb. by right.
Qed.

Lemma run_script_registry_actions publish acts :
  Forall (fun a => registry_action a = true) acts ->
  forall w, exists w',
    run_script publish acts w = Ok w' /\
    machines w' = machines w /\ trace w' = trace w.
Proof.
  induction 1 as [|a acts Ha _ IH]; intros w; simpl; [by exists w|].
  destruct a as [k h|k h|e|x]; try done; simpl in Ha |- *;
    apply negb_true_iff in Ha.
  - rewrite (subscribe_returns _ _ _ Ha). simpl.
    destruct (IH (subscribe_own k h w)) as (w' & -> & Em & Et).
    exists w'. by rewrite Em, Et, machines_subscribe, trace_subscribe.
  - rewrite (unsubscribe_returns _ _ _ Ha). simpl.
    destruct (IH (unsubscribe_own k h w)) as (w' & -> & Em & Et).
    exists w'. by rewrite Em, Et, machines_unsubscribe, trace_unsubscribe.
Qed.

Lemma deliver_registry_scripts script pub e l :
  (forall o, Forall (fun a => registry_action a = true) (script o e)) ->
  Forall (fun h => is_app h = false) l ->
  forall w, exists w',
    deliver_snapshot (fun h => handle script pub h e) l w = Ok w' /\
    machines w' = machines w /\
    trace w' = trace w ++ ((fun h => Handled h e) <$> l).
Proof.
  intros Hscript. induction 1 as [|h l Hh _ IH]; intros w; simpl.
  - exists w. by rewrite app_nil_r.
  - destruct h as [o|o|o|o|o]; try done. unfold handle at 1.
    destruct (run_script_registry_actions (pub (Some (Custom o))) (script o e)
                (Hscript o) (record (Handled (Custom o) e) w))
      as (w1 & -> & Em1 & Et1).
    simpl. destruct (IH w1) as (w' & -> & Em & Et).
    exists w'. split; [done|]. rewrite Em, Et, Em1, Et1. simpl.
    by rewrite <- app_assoc.
Qed.

(** ** The dispatcher: delivery, unsubscription, empty kinds, exceptions *)

Section DispatcherProperties.
Variable script : nat -> IEvent -> list Action.

(** C5. Registration under a kind that is not an inherited name returns
    normally, appends at the end of the kind's sequence and leaves the other
    kinds alone (first part). [publish], which reads the live array
    during [forEach], equals the pass over a snapshot of the sequence that
    was registered for the event's kind when it began, whatever the handlers
    do while the pass runs (second part). In particular, when the registered
    handlers are objects whose bodies only subscribe and unsubscribe, for
    kinds that are not inherited names, [publish] returns normally and the invocations it adds to the trace are
    those of the handlers registered when it began, one each, in
    registration order (third part). *)
Theorem publish_delivers_snapshot (w : World) :
  wf w ->
  (forall kind handler,
      inherited kind = false ->
      exists w',
        subscribe kind handler w = Ok w' /\
        registered kind w' = registered kind w ++ [handler] /\
        forall kind', kind' ≠ kind -> registered kind' w' = registered kind' w) /\
  (forall fuel caller event,
      publish script fuel caller event w =
      publish_snapshot script fuel caller event w) /\
  (forall fuel caller event,
      (forall o, Forall (fun a => registry_action a = true) (script o event)) ->
      Forall (fun h => is_app h = false) (registered (type event) w) ->
      exists w',
        publish script (S fuel) caller event w = Ok w' /\
        machines w' = machines w /\
        trace w' = trace w ++
          Published caller event ::
          ((fun h => Handled h event) <$> registered (type event) w)).
Proof.
  intros Hwf. split; [|split].
  - intros kind handler Hkind. exists (subscribe_own kind handler w).
    split; [by apply subscribe_returns|]. split.
    + by apply registered_subscribe_eq.
    + intros kind' Hne. by apply registered_subscribe_ne.
  - intros. apply publish_eq_snapshot.
  - intros fuel caller event Hscript Hcustom. rewrite publish_eq_snapshot. simpl.
    change (registered (type event) (record (Published caller event) w))
      with (registered (type event) w).
    destruct (deliver_registry_scripts script (publish script fuel) event
                (registered (type event) w) Hscript Hcustom
                (record (Published caller event) w)) as (w' & -> & Em & Et).
    exists w'. split; [done|]. split; [done|]. rewrite Et. simpl.
    by rewrite <- app_assoc.
Qed.

(** C6. [unsubscribe] raises on a kind that has no registration when the
    kind is a name that the registry object inherits. In the state of the
    program no handler is registered for "constructor", and on a new service
    none is registered for any kind; yet [unsubscribe("constructor", handler)]
    ends with a [TypeError] in the first, and so does [unsubscribe] for every
    inherited name in the second: the inherited value passes the test
    [if (subscribers)] and has no [filter]. The state is left as it was. *)
Theorem unsubscribe_throws_on_inherited_name (handler : ISubscriber) :
  registered "constructor" program_world = [] /\
  unsubscribe "constructor" handler program_world = Throw TypeError program_world /\
  Forall (fun kind =>
            registered kind (empty_world []) = [] /\
            unsubscribe kind handler (empty_world []) = Throw TypeError (empty_world []))
    inherited_names.
Proof. split; [done|]. split; [done|]. by repeat constructor. Qed.

(** C7. Publishing an event whose kind has no registered subscriber (no
    array, or an empty one) returns normally and changes neither the
    machines nor the registry nor the store; only the ghost trace records
    the call. *)
Theorem publish_no_subscriber (fuel : nat) (caller : option ISubscriber)
    (event : IEvent) (w : World) :
  registered (type event) w = [] ->
  exists w',
    publish script (S fuel) caller event w = Ok w' /\
    machines w' = machines w /\
    subscribers w' = subscribers w /\
    heap w' = heap w /\
    trace w' = trace w ++ [Published caller event].
Proof.
  intros Hnone. exists (record (Published caller event) w).
  rewrite publish_eq_snapshot. simpl.
  change (registered (type event) (record (Published caller event) w))
    with (registered (type event) w).
  by rewrite Hnone.
Qed.

(** C9. In the pass of [publish(event)]: when the handlers before [h] have
    returned and [h] throws [x] in state [w2], [publish] ends with that same
    exception in that same state, so nothing ran after the throw (first
    part); [publish] throws only what one of the handlers of its pass threw,
    in the state where it threw (second part); and when every handler of the
    pass returns normally, so does [publish] (third part). *)
Theorem publish_propagates_exception (fuel : nat) (caller : option ISubscriber)
    (event : IEvent) (w : World) :
  let callback := fun subscriber => handle script (publish script fuel) subscriber event in
  let w0 := record (Published caller event) w in
  (forall pre h post x w1 w2,
      registered (type event) w = pre ++ h :: post ->
      deliver_snapshot callback pre w0 = Ok w1 ->
      callback h w1 = Throw x w2 ->
      publish script (S fuel) caller event w = Throw x w2) /\
  (forall x w2,
      publish script (S fuel) caller event w = Throw x w2 ->
      exists pre h post w1,
        registered (type event) w = pre ++ h :: post /\
        deliver_snapshot callback pre w0 = Ok w1 /\
        callback h w1 = Throw x w2) /\
  ((forall h w1, h ∈ registered (type event) w -> exists w2, callback h w1 = Ok w2) ->
   exists w', publish script (S fuel) caller event w = Ok w').
Proof.
  intros callback w0.
  assert (publish script (S fuel) caller event w
          = deliver_snapshot callback (registered (type event) w) w0) as E
    by (by rewrite publish_eq_snapshot).
  rewrite E. repeat split.
  - intros pre h post x w1 w2 -> Hpre Hh.
    rewrite deliver_snapshot_app, Hpre. simpl. by rewrite Hh.
  - intros x w2 H. by apply deliver_snapshot_Throw.
  - intros Hok. by apply deliver_snapshot_Ok.
Qed.

End DispatcherProperties.

(** ** Lists of machines *)

Lemma findIndex_Some {A} (p : A -> bool) (l : list A) i :
  findIndex p l = Some i -> exists x, l !! i = Some x /\ p x = true.
Proof.
  revert i. induction l as [|x l IH]; intros i; simpl; [done|].
  destruct (p x) eqn:Hp.
  - intros [= <-]. by exists x.
  - destruct (findIndex p l) as [j|]; simpl; [|done].
    intros [= <-]. by apply IH.
Qed.

Lemma findIndex_None {A} (p : A -> bool) (l : list A) :
  findIndex p l = None <-> Forall (fun x => p x = false) l.
Proof.
  induction l as [|x l IH]; simpl; [by split; [constructor|]|].
  rewrite Forall_cons. destruct (p x); [split; [done | by intros [? _]]|].
  destruct (findIndex p l); simpl.
  - split; [done|]. intros [_ H]. by apply IH in H.
  - split; [|done]. intros _. split; [done|]. by apply IH.
Qed.

Lemma findIndex_fmap {A B} (g : A -> B) (p : B -> bool) (l : list A) :
  findIndex (fun x => p (g x)) l = findIndex p (g <$> l).
Proof. induction l as [|x l IH]; simpl; [done|]. by rewrite IH. Qed.

Lemma findIndex_by_id s (ms ms' : list Machine) :
  id <$> ms' = id <$> ms ->
  findIndex (fun machine => String.eqb (id machine) s) ms'
  = findIndex (fun machine => String.eqb (id machine) s) ms.
Proof.
  intros E.
  rewrite (findIndex_fmap id (fun x => String.eqb x s) ms').
  rewrite (findIndex_fmap id (fun x => String.eqb x s) ms).
  by rewrite E.
Qed.

Lemma fmap_alter_same {A B} (g : A -> B) (f : A -> A) i (l : list A) :
  (forall x, g (f x) = g x) -> g <$> alter f i l = g <$> l.
Proof.
  intros H. apply list_eq. intros j. rewrite !list_lookup_fmap.
  destruct (decide (i = j)) as [->|Hne].
  - rewrite list_lookup_alter_eq. destruct (l !! j); simpl; [|done]. by rewrite H.
  - by rewrite list_lookup_alter_ne.
Qed.

Lemma fmap_lookup_eq {A B} (g : A -> B) (l l' : list A) i x x' :
  g <$> l' = g <$> l -> l !! i = Some x -> l' !! i = Some x' -> g x' = g x.
Proof.
  intros E Hx Hx'. assert ((g <$> l') !! i = (g <$> l) !! i) as H by by rewrite E.
  rewrite !list_lookup_fmap, Hx, Hx' in H. by injection H.
Qed.

Lemma fmap_lookup_is_Some {A B} (g : A -> B) (l l' : list A) i x :
  g <$> l' = g <$> l -> l !! i = Some x -> exists x', l' !! i = Some x'.
Proof.
  intros E Hx. assert ((g <$> l') !! i = (g <$> l) !! i) as H by by rewrite E.
  rewrite !list_lookup_fmap, Hx in H. destruct (l' !! i); [by eexists | done].
Qed.

(** ** Steps *)

#[global] Instance steps_preorder allowed : PreOrder (steps allowed).
Proof. unfold steps. apply _. Qed.

Lemma steps_lift (R : relation World) `{!PreOrder R} allowed :
  (forall lbl w w', allowed lbl = true -> step lbl w w' -> R w w') ->
  forall w w', steps allowed w w' -> R w w'.
Proof.
  intros H w w' Hs.
  induction Hs as [|w1 w2 w3 (lbl & Ha & Hst) _ IH]; [done|].
  etrans; [|done]. by eapply H.
Qed.

Lemma steps_mono (A B : Label -> bool) :
  (forall lbl, A lbl = true -> B lbl = true) ->
  forall w w', steps A w w' -> steps B w w'.
Proof.
  intros H. apply steps_lift; [apply _|].
  intros lbl w w' Ha Hst. apply rtc_once. exists lbl. auto.
Qed.

Lemma steps_then allowed lbl w w1 w2 :
  steps allowed w w1 -> allowed lbl = true -> step lbl w1 w2 -> steps allowed w w2.
Proof. intros Hs Ha Hst. eapply rtc_r; [done|]. by exists lbl. Qed.

#[global] Instance registry_unchanged_preorder : PreOrder registry_unchanged.
Proof.
  split.
  - by intros w.
  - intros w1 w2 w3 [H1 H2] [H3 H4]. split; congruence.
Qed.

Lemma step_registry_unchanged lbl w w' : step lbl w w' -> registry_unchanged w w'.
Proof. by destruct 1. Qed.

Lemma steps_registry_unchanged allowed w w' : steps allowed w w' -> registry_unchanged w w'.
Proof. apply steps_lift; [apply _|]. intros lbl ? ? _. apply step_registry_unchanged. Qed.

Lemma steps_app_only allowed w w' : steps allowed w w' -> app_only w -> app_only w'.
Proof.
  intros H. apply steps_registry_unchanged in H as [E _]. unfold app_only. by rewrite E.
Qed.

#[global] Instance latch_unchanged_preorder L : PreOrder (latch_unchanged L).
Proof.
  split.
  - by intros w.
  - intros w1 w2 w3. unfold latch_unchanged. congruence.
Qed.

#[global] Instance latches_kept_preorder : PreOrder latches_kept.
Proof.
  split.
  - intros w. split; [done|]. intros L i m m' H1 H2. by simplify_eq.
  - intros w1 w2 w3 [E12 H12] [E23 H23]. split; [congruence|].
    intros L i m1 m3 Hm1 Hm3 Hf.
    destruct (fmap_lookup_is_Some id _ _ _ _ E12 Hm1) as [m2 Hm2].
    eapply H23; [done..|]. by eapply H12.
Qed.

Lemma fired_setStockLevel L v m : fired L (setStockLevel v m) = fired L m.
Proof. by destruct L. Qed.

Lemma fired_set_fired_same L m : fired L (set_fired L m) = true.
Proof. by destruct L. Qed.

Lemma fired_set_fired_other L L' m : L ≠ L' -> fired L (set_fired L' m) = fired L m.
Proof. by destruct L, L'. Qed.

Lemma id_set_fired L m : id (set_fired L m) = id m.
Proof. by destruct L. Qed.

Lemma latches_kept_alter i f w :
  (forall m, id (f m) = id m) ->
  (forall L m, fired L m = true -> fired L (f m) = true) ->
  latches_kept w (update_machine i f w).
Proof.
  intros Hid Hf. split; simpl.
  - by apply fmap_alter_same.
  - intros L j m m' Hm. destruct (decide (i = j)) as [->|Hne].
    + rewrite list_lookup_alter_eq, Hm. simpl. intros [= <-]. apply Hf.
    + rewrite list_lookup_alter_ne, Hm by done. by intros [= <-].
Qed.

Lemma latches_kept_same w w' : machines w' = machines w -> latches_kept w w'.
Proof. intros E. split; rewrite E; [done|]. intros L i m m' H1 H2. by simplify_eq. Qed.

Lemma step_latches_kept lbl w w' : step lbl w w' -> latches_kept w w'.
Proof.
  destruct 1 as [h e w|c e w _|i f w Hf|L o i m w _ _ _].
  - by apply latches_kept_same.
  - by apply latches_kept_same.
  - apply latches_kept_alter.
    + intros m. by destruct (Hf m) as [v ->].
    + intros L m. destruct (Hf m) as [v ->]. by rewrite fired_setStockLevel.
  - etrans; [apply (latches_kept_alter i (set_fired L))|by apply latches_kept_same].
    + apply id_set_fired.
    + intros L' m'. destruct (decide (L' = L)) as [->|Hne].
      * intros _. apply fired_set_fired_same.
      * by rewrite fired_set_fired_other.
Qed.

Lemma steps_latches_kept allowed w w' : steps allowed w w' -> latches_kept w w'.
Proof. apply steps_lift; [apply _|]. intros lbl ? ? _. apply step_latches_kept. Qed.

Lemma step_latch_unchanged L lbl w w' :
  step lbl w w' -> lbl ≠ LFired L -> latch_unchanged L w w'.
Proof.
  destruct 1 as [h e w|c e w _|i f w Hf|L' o i m w _ _ _]; intros Hne; try done.
  - apply fmap_alter_same. intros m. destruct (Hf m) as [v ->].
    apply fired_setStockLevel.
  - unfold latch_unchanged. simpl. apply fmap_alter_same. intros m'.
    apply fired_set_fired_other. congruence.
Qed.

Lemma steps_latch_unchanged L allowed w w' :
  allowed (LFired L) = false -> steps allowed w w' -> latch_unchanged L w w'.
Proof.
  intros Hno. apply steps_lift; [apply _|]. intros lbl ? ? Ha Hst.
  eapply step_latch_unchanged; [done|]. intros ->. congruence.
Qed.

(** ** At most one notification per latch *)

#[global] Instance once_kept_preorder L : PreOrder (once_kept L).
Proof. split; unfold once_kept; [intros ?; auto | intros ? ? ?; auto]. Qed.

Lemma notifications_snoc L s tr o :
  notifications L s (tr ++ [o]) =
  notifications L s tr + (if notified L s o then 1 else 0).
Proof.
  unfold notifications. rewrite filter_app, length_app. f_equal.
  rewrite filter_cons. destruct (decide (notified L s o = true)) as [->|Hn]; [done|].
  by apply not_true_is_false in Hn as ->.
Qed.

Lemma notified_counted L s o : notified L s o = true -> counted o = true.
Proof.
  destruct L, o as [[[]|] []|]; simpl; done.
Qed.

Lemma notified_by_latch L L' s o sid :
  notified L s (Published (Some (latch_subscriber L' o)) (notification L' sid)) = true ->
  L = L' /\ sid = s.
Proof.
  destruct L, L'; simpl; try done; intros H; by apply bool_decide_eq_true in H.
Qed.

Lemma fired_count_le_1 L s ms : fired_count L s ms <= 1.
Proof. unfold fired_count. destruct (machine_of s ms) as [m|]; [destruct (fired L m)|]; lia. Qed.

Lemma fired_count_mono L s ms ms' :
  id <$> ms' = id <$> ms ->
  (forall i m m', ms !! i = Some m -> ms' !! i = Some m' ->
                  fired L m = true -> fired L m' = true) ->
  fired_count L s ms <= fired_count L s ms'.
Proof.
  intros Eid Hmono. unfold fired_count, machine_of.
  rewrite (findIndex_by_id s ms ms' Eid).
  destruct (findIndex _ ms) as [i|]; simpl; [|done].
  destruct (ms !! i) as [m|] eqn:Hm; [|lia].
  destruct (fmap_lookup_is_Some id _ _ _ _ Eid Hm) as [m' Hm']. rewrite Hm'.
  destruct (fired L m) eqn:Hf; [|lia].
  by rewrite (Hmono _ _ _ Hm Hm' Hf).
Qed.

Lemma fired_count_unset L i m ms :
  findIndex (fun machine => String.eqb (id machine) (id m)) ms = Some i ->
  ms !! i = Some m -> fired L m = false ->
  fired_count L (id m) ms = 0.
Proof.
  intros Hi Hm Hf. unfold fired_count, machine_of. rewrite Hi. simpl.
  by rewrite Hm, Hf.
Qed.

Lemma fired_count_set L i m ms :
  findIndex (fun machine => String.eqb (id machine) (id m)) ms = Some i ->
  ms !! i = Some m ->
  fired_count L (id m) (alter (set_fired L) i ms) = 1.
Proof.
  intros Hi Hm. unfold fired_count, machine_of.
  rewrite (findIndex_by_id (id m) ms (alter (set_fired L) i ms)), Hi.
  2:{ apply fmap_alter_same. apply id_set_fired. }
  simpl. rewrite list_lookup_alter_eq, Hm. simpl.
  by rewrite fired_set_fired_same.
Qed.

Lemma step_once_kept L lbl w w' : step lbl w w' -> once_kept L w w'.
Proof.
  destruct 1 as [h e w|c e w Hc|i f w Hf|L' o i m w Hi Hm Hfalse]; intros Hinv s.
  - simpl. rewrite notifications_snoc.
    replace (notified L s (Handled h e)) with false by by destruct L.
    rewrite Nat.add_0_r. apply Hinv.
  - simpl. rewrite notifications_snoc.
    destruct (notified L s (Published c e)) eqn:Hn.
    + apply notified_counted in Hn. congruence.
    + rewrite Nat.add_0_r. apply Hinv.
  - simpl. etrans; [apply Hinv|]. apply fired_count_mono.
    + apply fmap_alter_same. intros m. by destruct (Hf m) as [v ->].
    + intros j m m' Hm. destruct (decide (i = j)) as [->|Hne].
      * rewrite list_lookup_alter_eq, Hm. simpl. intros [= <-].
        destruct (Hf m) as [v ->]. by rewrite fired_setStockLevel.
      * rewrite list_lookup_alter_ne, Hm by done. by intros [= <-].
  - simpl. rewrite notifications_snoc.
    destruct (notified L s _) eqn:Hn.
    + apply notified_by_latch in Hn as [-> <-].
      specialize (Hinv (id m)).
      rewrite (fired_count_unset _ _ _ _ Hi Hm Hfalse) in Hinv.
      rewrite (fired_count_set _ _ _ _ Hi Hm). lia.
    + rewrite Nat.add_0_r. etrans; [apply Hinv|].
      destruct (step_latches_kept _ _ _ (step_fired L' o i m w Hi Hm Hfalse)) as [Eid Hk].
      apply fired_count_mono; [done|]. intros j m1 m2 H1 H2. by eapply Hk.
Qed.

Lemma steps_once_kept L allowed w w' : steps allowed w w' -> once_kept L w w'.
Proof. apply steps_lift; [apply _|]. intros lbl ? ? _. apply step_once_kept. Qed.

(** ** Deliveries to the four subscriber classes *)

Lemma done_after_mono (P Q : World -> Prop) o :
  (forall w, P w -> Q w) -> done_after P o -> done_after Q o.
Proof. destruct o; simpl; auto. Qed.

Lemma done_after_after P o : done_after P o -> after P o.
Proof. by destruct o. Qed.

Lemma deliver_snapshot_done (R : relation World) `{!PreOrder R} callback l w0 :
  (forall h w, h ∈ l -> R w0 w -> done_after (R w) (callback h w)) ->
  forall w, R w0 w -> done_after (R w0) (deliver_snapshot callback l w).
Proof.
  induction l as [|h l IH]; intros Hcb w Hw; simpl; [done|].
  assert (done_after (R w) (callback h w)) as Hh by (apply Hcb; [by left | done]).
  destruct (callback h w) as [w1|x w1|]; simpl in *; [| by etrans | done].
  apply IH; [|by etrans]. intros h' w' ? ?. apply Hcb; [by right | done].
Qed.

Lemma registered_app_only k w :
  app_only w -> Forall (fun h => is_app h = true) (registered k w).
Proof.
  intros Happ. unfold registered.
  destruct (subscribers w !! k) as [l|]; simpl; [|done].
  destruct (heap w !! l) as [arr|] eqn:E; simpl; [|done].
  by eapply Forall_lookup_1 in Happ.
Qed.

Lemma machineIndexOf_id e w i m :
  machineIndexOf e w = Some i -> machines w !! i = Some m ->
  id m = machineId e /\
  findIndex (fun machine => String.eqb (id machine) (id m)) (machines w) = Some i.
Proof.
  unfold machineIndexOf. intros Hi Hm.
  destruct (findIndex_Some _ _ _ Hi) as (m' & Hm' & Heq).
  assert (m' = m) as -> by congruence.
  apply String.eqb_eq in Heq. by rewrite Heq.
Qed.

Section AppDelivery.
Variable script : nat -> IEvent -> list Action.

Lemma handle_notification pub h e w :
  is_app h = true -> is_notification e = true ->
  done_after (steps only_handled w) (handle script pub h e w).
Proof.
  intros Hh He.
  assert (steps only_handled w (record (Handled h e) w)) as Hs
    by (apply rtc_once; exists LHandled; split; [done | constructor]).
  destruct h as [o|o|o|o|o]; try done; destruct e as [q s|q s|s|s]; try done;
    unfold handle; simpl;
    unfold MachineSaleSubscriber.handle, MachineRefillSubscriber.handle, machineAt;
    simpl;
    repeat match goal with
           | |- context [match ?x with _ => _ end] => destruct x; simpl
           end; done.
Qed.

Lemma publish_notification fuel c e w :
  app_only w -> is_notification e = true ->
  done_after (steps only_handled (record (Published c e) w))
    (publish script (S fuel) c e w).
Proof.
  intros Happ He. rewrite publish_eq_snapshot. simpl.
  apply deliver_snapshot_done; [apply _ | | done].
  intros h w' Hin _. apply handle_notification; [|done].
  change (registered (type e) (record (Published c e) w))
    with (registered (type e) w) in Hin.
  by eapply Forall_forall in Hin; [|by apply registered_app_only].
Qed.

(** The nested [publish] of a notification, after the steps [w ~> w2] that
    the handler has taken. *)
Lemma nested_publish allowed fuel c e w w2 :
  allowed LHandled = true ->
  app_only w2 -> is_notification e = true ->
  steps allowed w (record (Published c e) w2) ->
  done_after (steps allowed w) (publish script (S fuel) c e w2).
Proof.
  intros Hall Happ He Hs.
  eapply done_after_mono; [|by apply publish_notification].
  intros w' Hs'. etrans; [done|].
  eapply steps_mono; [|done]. by intros [].
Qed.
End AppDelivery.

Section AppPublish.
Variable script : nat -> IEvent -> list Action.

Lemma handle_stock_event fuel h e w :
  is_app h = true -> app_only w -> is_notification e = false ->
  done_after (steps (allowed_for e) w)
    (handle script (publish script (S fuel)) h e w).
Proof.
  intros Hh Happ He.
  assert (steps (allowed_for e) w (record (Handled h e) w)) as Hs
    by (apply rtc_once; exists LHandled; split; [by destruct e | constructor]).
  unfold handle.
  assert (app_only (record (Handled h e) w)) as Happ1 by done.
  revert Hs Happ1. generalize (record (Handled h e) w). intros w1 Hs Happ1.
  destruct h as [o|o|o|o|o]; try done.
  - unfold MachineSaleSubscriber.handle.
    destruct (machineIndexOf e w1) as [i|] eqn:Hi; [|done].
    destruct e as [q s|q s|s|s]; try done.
    cbn [getSoldQuantity].
    set (f := fun m => setStockLevel (stockLevel m - q) m).
    assert (steps (allowed_for (MachineSaleEvent q s)) w (update_machine i f w1)) as Hs2.
    { eapply (steps_then _ LStock); [done | done | constructor; intros m; by eexists]. }
    unfold machineAt. destruct (machines (update_machine i f w1) !! i) as [m|]; [|done].
    destruct (stockLevel m <? 3)%Z; [|done].
    apply nested_publish; [done..|].
    eapply (steps_then _ LPublished); [done | done | by constructor].
  - unfold MachineRefillSubscriber.handle.
    destruct (machineIndexOf e w1) as [i|] eqn:Hi; [|done].
    unfold machineAt at 1. destruct (machines w1 !! i) as [m0|]; [|done].
    destruct e as [q s|q s|s|s]; try done.
    cbn [getRefillQuantity].
    set (f := fun m => setStockLevel (stockLevel m + q) m).
    assert (steps (allowed_for (MachineRefillEvent q s)) w (update_machine i f w1)) as Hs2.
    { eapply (steps_then _ LStock); [done | done | constructor; intros m; by eexists]. }
    unfold machineAt. destruct (machines (update_machine i f w1) !! i) as [m|]; [|done].
    destruct (_ && _); [|done].
    apply nested_publish; [done..|].
    eapply (steps_then _ LPublished); [done | done | by constructor].
  - unfold LowStockWarningSubscriber.handle.
    destruct e as [q s|q s|s|s]; try done.
    destruct (machineIndexOf _ w1) as [i|] eqn:Hi; [|done].
    unfold machineAt at 1. destruct (machines w1 !! i) as [m|] eqn:Hm; [|done].
    destruct (_ && _) eqn:Hc; [|done].
    apply andb_true_iff in Hc as [_ Hlatch]. apply negb_true_iff in Hlatch.
    unfold machineAt. cbn [machines update_machine set_machines].
    rewrite list_lookup_alter_eq, Hm. cbn [fmap option_fmap option_map].
    destruct (machineIndexOf_id _ _ _ _ Hi Hm) as [_ Hfi].
    apply nested_publish; [done..|].
    eapply (steps_then _ (LFired LowStock)); [done | done |].
    exact (step_fired LowStock o i m w1 Hfi Hm Hlatch).
  - unfold StockLevelOkSubscriber.handle.
    destruct e as [q s|q s|s|s]; try done.
    destruct (machineIndexOf _ w1) as [i|] eqn:Hi; [|done].
    unfold machineAt at 1. destruct (machines w1 !! i) as [m|] eqn:Hm; [|done].
    destruct (_ && _) eqn:Hc; [|done].
    apply andb_true_iff in Hc as [_ Hlatch]. apply negb_true_iff in Hlatch.
    unfold machineAt. cbn [machines update_machine set_machines].
    rewrite list_lookup_alter_eq, Hm. cbn [fmap option_fmap option_map].
    destruct (machineIndexOf_id _ _ _ _ Hi Hm) as [_ Hfi].
    apply nested_publish; [done..|].
    eapply (steps_then _ (LFired StockOk)); [done | done |].
    exact (step_fired StockOk o i m w1 Hfi Hm Hlatch).
Qed.

(** With fuel for two levels of [publish], a delivery among subscribers of
    the four classes ends, and what it did is a sequence of the steps allowed
    for its event. *)
Lemma publish_app fuel c e w :
  app_only w -> counted (Published c e) = false ->
  done_after (steps (allowed_for e) w) (publish script (S (S fuel)) c e w).
Proof.
  intros Happ Hc. rewrite publish_eq_snapshot. simpl.
  change (registered (type e) (record (Published c e) w))
    with (registered (type e) w).
  apply deliver_snapshot_done; [apply _ | |].
  - intros h w' Hin Hs.
    assert (is_app h = true) as Hh
      by (by eapply Forall_forall in Hin; [|by apply registered_app_only]).
    assert (app_only w') as Happ' by by eapply steps_app_only.
    destruct (is_notification e) eqn:He.
    + eapply done_after_mono; [|by apply handle_notification].
      intros w'' Hs'. eapply steps_mono; [|done]. by intros [].
    + by apply handle_stock_event.
  - apply rtc_once. exists LPublished. split; [by destruct e | by constructor].
Qed.
End AppPublish.

(** ** Runs keep the latches *)

#[global] Instance run_kept_preorder : PreOrder run_kept.
Proof.
  split.
  - intros w. split; [done|]. split; [|done]. intros L. reflexivity.
  - intros w1 w2 w3 (K12 & O12 & A12) (K23 & O23 & A23).
    split; [by etrans|]. split; [|auto]. intros L. etrans; [apply O12 | apply O23].
Qed.

Lemma run_kept_registry_op w w' :
  machines w' = machines w -> trace w' = trace w ->
  (app_only w -> app_only w') -> run_kept w w'.
Proof.
  intros Em Et Ha. split; [by apply latches_kept_same|]. split; [|done].
  intros L Hinv s. rewrite Em, Et. apply Hinv.
Qed.

Lemma app_only_bind_new_array k arr w :
  Forall (fun h => is_app h = true) arr -> app_only w -> app_only (bind_new_array k arr w).
Proof. intros Harr Hw. unfold app_only. simpl. apply Forall_app. by repeat constructor. Qed.

Lemma app_only_push l h w : is_app h = true -> app_only w -> app_only (push l h w).
Proof.
  intros Hh Hw. unfold app_only in *. simpl.
  apply Forall_lookup. intros j arr. destruct (decide (l = j)) as [->|Hne].
  - rewrite list_lookup_alter_eq. destruct (heap w !! j) as [a|] eqn:E; simpl; [|done].
    intros [= <-]. apply Forall_app. split; [by eapply Forall_lookup_1 | by repeat constructor].
  - rewrite list_lookup_alter_ne by done. intros E. by eapply Forall_lookup_1.
Qed.

Lemma app_only_subscribe k h w :
  is_app h = true -> app_only w -> app_only (subscribe_own k h w).
Proof.
  intros Hh Hw. unfold subscribe_own. destruct (subscribers w !! k) as [l|] eqn:E.
  - rewrite E. by apply app_only_push.
  - destruct (subscribers (bind_new_array k [] w) !! k);
      [apply app_only_push; [done|]|]; by apply app_only_bind_new_array.
Qed.

Lemma app_only_unsubscribe k h w : app_only w -> app_only (unsubscribe_own k h w).
Proof.
  intros Hw. unfold unsubscribe_own. destruct (subscribers w !! k) as [l|]; [|done].
  destruct (heap w !! l) as [arr|] eqn:E; [|done].
  apply app_only_bind_new_array; [|done].
  apply Forall_forall. intros x Hx. apply list_elem_of_filter in Hx as [_ Hx].
  eapply Forall_lookup_1 in E; [|exact Hw]. by eapply Forall_forall in E.
Qed.

Section Runs.
Variable script : nat -> IEvent -> list Action.

Lemma steps_run_kept allowed w w' : steps allowed w w' -> run_kept w w'.
Proof.
  intros Hs. split; [by eapply steps_latches_kept|]. split.
  - intros L. by eapply steps_once_kept.
  - by eapply steps_app_only.
Qed.

Lemma exec_op_run_kept fuel op w :
  app_op op = true -> app_only w ->
  exists w', exec_op script (S (S fuel)) op w = Some w' /\ run_kept w w'.
Proof.
  intros Hop Happ. destruct op as [e|k h|k h]; cbn [exec_op].
  - assert (done_after (steps (allowed_for e) w) (publish script (S (S fuel)) None e w)) as H
      by by apply publish_app.
    destruct (publish script (S (S fuel)) None e w) as [w'|x w'|]; [| |done];
      exists w'; (split; [done | by eapply steps_run_kept]).
  - rewrite subscribe_spec. destruct (_ && _); (eexists; split; [done|]); [done|].
    apply run_kept_registry_op.
    + apply machines_subscribe.
    + apply trace_subscribe.
    + by apply app_only_subscribe.
  - rewrite unsubscribe_spec. destruct (_ && _); (eexists; split; [done|]); [done|].
    apply run_kept_registry_op.
    + apply machines_unsubscribe.
    + apply trace_unsubscribe.
    + apply app_only_unsubscribe.
Qed.

Lemma exec_run_kept fuel ops : forall w,
  Forall (fun op => app_op op = true) ops -> app_only w ->
  exists w', exec script (S (S fuel)) ops w = Some w' /\ run_kept w w'.
Proof.
  induction ops as [|op ops IH]; intros w Hops Happ.
  - by exists w.
  - apply Forall_cons in Hops as [Hop Hops].
    destruct (exec_op_run_kept fuel op w Hop Happ) as (w1 & E1 & K1).
    destruct (IH w1 Hops) as (w2 & E2 & K2); [by apply K1|].
    exists w2. cbn [exec]. rewrite E1. split; [done | by etrans].
Qed.
End Runs.

(** ** The sale and refill handlers on a machine that exists *)

Lemma alter_found {A} (f : A -> A) i (l : list A) x :
  l !! i = Some x -> alter f i l = <[i := f x]> l.
Proof.
  intros H. apply list_eq. intros j. destruct (decide (i = j)) as [->|Hne].
  - rewrite list_lookup_alter_eq, H, list_lookup_insert_eq; [done|].
    by eapply lookup_lt_Some.
  - by rewrite list_lookup_alter_ne, list_lookup_insert_ne.
Qed.

Lemma lookup_found {A} (l : list A) i x y :
  l !! i = Some x -> <[i := y]> l !! i = Some y.
Proof. intros H. apply list_lookup_insert_eq. by eapply lookup_lt_Some. Qed.

(** What [MachineSaleSubscriber.handle] does for a sale on a machine that
    exists: the stock goes down by the quantity and the warning is published
    exactly when the new stock is below 3. No latch is read or written. *)
Lemma sale_handle_found publish (q : Z) (s : string) (w : World) (i : nat) (m : Machine) :
  machineIndexOf (MachineSaleEvent q s) w = Some i ->
  machines w !! i = Some m ->
  let w' := set_machines (<[i := setStockLevel (stockLevel m - q) m]> (machines w)) w in
  MachineSaleSubscriber.handle publish (MachineSaleEvent q s) w =
  if (stockLevel m - q <? 3)%Z then publish (LowStockWarningEvent (id m)) w' else Ok w'.
Proof.
  intros Hi Hm. unfold MachineSaleSubscriber.handle. rewrite Hi. cbn [getSoldQuantity].
  unfold machineAt, update_machine.
  rewrite (alter_found _ _ _ _ Hm). cbn [machines set_machines].
  by rewrite (lookup_found _ _ _ _ Hm).
Qed.

Lemma refill_handle_found publish (q : Z) (s : string) (w : World) (i : nat) (m : Machine) :
  machineIndexOf (MachineRefillEvent q s) w = Some i ->
  machines w !! i = Some m ->
  let w' := set_machines (<[i := setStockLevel (stockLevel m + q) m]> (machines w)) w in
  MachineRefillSubscriber.handle publish (MachineRefillEvent q s) w =
  if (stockLevel m <? 3)%Z && (3 <=? stockLevel m + q)%Z
  then publish (StockLevelOkEvent (id m)) w' else Ok w'.
Proof.
  intros Hi Hm. unfold MachineRefillSubscriber.handle. rewrite Hi.
  unfold machineAt at 1. rewrite Hm. cbn [getRefillQuantity].
  unfold machineAt, update_machine.
  rewrite (alter_found _ _ _ _ Hm). cbn [machines set_machines].
  by rewrite (lookup_found _ _ _ _ Hm).
Qed.

(** C3. For a refill of [q] on the machine [m] that [findIndex] selects,
    the stock, [q] and their sum being safe integers,
    [MachineRefillSubscriber.handle] leaves the state [w'] in which that
    machine's stock is [stockLevel m + q] and nothing else differs, and it
    calls [publish] (whatever service it was given) with the StockOk event of
    [m], once and in [w'], when the stock was below 3 and is now at least 3;
    otherwise it returns with [w'] and calls nothing. In particular it calls
    nothing when the stock was already at least 3. *)
Theorem refill_publishes_stock_ok_on_crossing
    (publish : IEvent -> World -> Outcome)
    (q : Z) (s : string) (w : World) (i : nat) (m : Machine) :
  machineIndexOf (MachineRefillEvent q s) w = Some i ->
  machines w !! i = Some m ->
  safe_integer (stockLevel m) ->
  safe_integer q ->
  safe_integer (stockLevel m + q) ->
  let w' := set_machines (<[i := setStockLevel (stockLevel m + q) m]> (machines w)) w in
  let result := MachineRefillSubscriber.handle publish (MachineRefillEvent q s) w in
  ((stockLevel m < 3 /\ 3 <= stockLevel m + q)%Z ->
   result = publish (StockLevelOkEvent (id m)) w') /\
  (~ (stockLevel m < 3 /\ 3 <= stockLevel m + q)%Z -> result = Ok w') /\
  ((3 <= stockLevel m)%Z -> result = Ok w').
Proof.
  intros Hi Hm _ _ _ w' result. subst result.
  rewrite (refill_handle_found publish q s w i m Hi Hm). fold w'.
  destruct (Z.ltb_spec (stockLevel m) 3), (Z.leb_spec 3 (stockLevel m + q));
    simpl; repeat split; intros; try done; lia.
Qed.

(** The same at the level of the dispatcher, for any state that has the
    registry of the program: the delivery of a refill on a machine that
    exists invokes the refill subscriber alone, and [publish] is called with
    StockOk exactly on a crossing from below 3 to at least 3. *)
Lemma registered_same_registry k w w0 :
  subscribers w = subscribers w0 -> heap w = heap w0 ->
  registered k w = registered k w0.
Proof. intros Es Eh. unfold registered. by rewrite Es, Eh. Qed.

Lemma refill_delivery_program_registry script fuel (q : Z) (s : string) w i m :
  subscribers w = subscribers program_world ->
  heap w = heap program_world ->
  machineIndexOf (MachineRefillEvent q s) w = Some i ->
  machines w !! i = Some m ->
  exists w',
    publish script (S (S fuel)) None (MachineRefillEvent q s) w = Ok w' /\
    machines w' = <[i := setStockLevel (stockLevel m + q) m]> (machines w) /\
    trace w' = trace w ++
      [Published None (MachineRefillEvent q s);
       Handled refillSubscriber (MachineRefillEvent q s)] ++
      (if (stockLevel m <? 3)%Z && (3 <=? stockLevel m + q)%Z
       then [Published (Some refillSubscriber) (StockLevelOkEvent (id m))]
       else []).
Proof.
  intros Es Eh Hi Hm. rewrite publish_eq_snapshot.
  cbn [publish_snapshot type].
  rewrite (registered_same_registry "refill"
             (record (Published None (MachineRefillEvent q s)) w) program_world Es Eh).
  change (registered "refill" program_world) with [refillSubscriber].
  cbn [deliver_snapshot andThen]. unfold handle, refillSubscriber.
  match goal with
  | |- context [MachineRefillSubscriber.handle ?pub _ ?w1] =>
    rewrite (refill_handle_found pub q s w1 i m Hi Hm)
  end.
  destruct (_ && _).
  - rewrite publish_eq_snapshot. cbn [publish_snapshot type].
    match goal with
    | |- context [registered "stockLevelOk" ?w2] =>
      rewrite (registered_same_registry "stockLevelOk" w2 program_world Es Eh)
    end.
    change (registered "stockLevelOk" program_world) with (@nil ISubscriber).
    eexists. split; [done|]. split; [done|]. simpl. by rewrite <- !app_assoc.
  - eexists. split; [done|]. split; [done|]. simpl. by rewrite <- !app_assoc.
Qed.

(** ** Events for a machine that does not exist *)

Lemma machineIndexOf_unknown e w :
  Forall (fun m => id m ≠ machineId e) (machines w) -> machineIndexOf e w = None.
Proof.
  intros H. apply findIndex_None. eapply Forall_impl; [done|].
  intros m Hne. simpl in *. by apply String.eqb_neq.
Qed.

Lemma handle_unknown_machine script pub h e w :
  is_app h = true -> machineIndexOf e w = None ->
  handle script pub h e w = Ok (record (Handled h e) w).
Proof.
  intros Hh Hi.
  assert (machineIndexOf e (record (Handled h e) w) = None) as Hi' by done.
  destruct h as [o|o|o|o|o]; try done; unfold handle;
    unfold MachineSaleSubscriber.handle, MachineRefillSubscriber.handle,
      LowStockWarningSubscriber.handle, StockLevelOkSubscriber.handle;
    rewrite ?Hi'; try done; destruct e; by rewrite ?Hi'.
Qed.

Lemma deliver_unknown_machine script pub e l :
  Forall (fun h => is_app h = true) l ->
  forall w, machineIndexOf e w = None ->
  exists w',
    deliver_snapshot (fun h => handle script pub h e) l w = Ok w' /\
    machines w' = machines w /\ subscribers w' = subscribers w /\
    heap w' = heap w /\
    trace w' = trace w ++ ((fun h => Handled h e) <$> l).
Proof.
  induction 1 as [|h l Hh Hl IH]; intros w Hi; simpl.
  - exists w. by rewrite app_nil_r.
  - rewrite (handle_unknown_machine _ _ _ _ _ Hh Hi). simpl.
    destruct (IH (record (Handled h e) w)) as (w' & E & Em & Es & Eh & Et); [done|].
    exists w'. split; [done|]. simpl in *. by rewrite <- app_assoc in Et.
Qed.

(** C8. When no machine has the id of the event, each of the four handlers
    returns at once with the state it was given, whatever service it holds
    (first part); and with only subscribers of these classes registered,
    publishing the event returns normally, leaves machines, registry and
    store as they were, and adds to the trace the event itself and one
    invocation per registered subscriber, hence no other [publish]. *)
Theorem unknown_machine_is_dropped (script : nat -> IEvent -> list Action)
    (event : IEvent) (w : World) :
  Forall (fun m => id m ≠ machineId event) (machines w) ->
  (forall publish,
      MachineSaleSubscriber.handle publish event w = Ok w /\
      MachineRefillSubscriber.handle publish event w = Ok w /\
      LowStockWarningSubscriber.handle publish event w = Ok w /\
      StockLevelOkSubscriber.handle publish event w = Ok w) /\
  (app_only w ->
   forall fuel caller, exists w',
     publish script (S fuel) caller event w = Ok w' /\
     machines w' = machines w /\ subscribers w' = subscribers w /\
     heap w' = heap w /\
     trace w' = trace w ++
       Published caller event :: ((fun h => Handled h event) <$> registered (type event) w)).
Proof.
  intros Hnone. apply machineIndexOf_unknown in Hnone. split.
  - intros publish.
    unfold MachineSaleSubscriber.handle, MachineRefillSubscriber.handle,
      LowStockWarningSubscriber.handle, StockLevelOkSubscriber.handle.
    rewrite Hnone. by destruct event.
  - intros Happ fuel caller. rewrite publish_eq_snapshot. simpl.
    change (registered (type event) (record (Published caller event) w))
      with (registered (type event) w).
    destruct (deliver_unknown_machine script (publish script fuel) event
                (registered (type event) w) (registered_app_only _ _ Happ)
                (record (Published caller event) w) Hnone)
      as (w' & E & Em & Es & Eh & Et).
    exists w'. split; [done|]. simpl in *. by rewrite <- app_assoc in Et.
Qed.

(** ** Latches *)

(** C4 as stated fails: after the sale of 8 on machine "001" (stock 2,
    low-stock latch set), the refill of 5 carries the stock to 7 and the
    low-stock latch is still set. *)
Lemma crossing_leaves_latch_set : ~ crossing_clears_opposite_latch.
Proof.
  intros H.
  destruct (H [Publish (MachineSaleEvent 8 "001")] (MachineRefillEvent 5 "001")
              after_sale_of_8 then_refill_of_5 0
              (mkMachine 2 "001" true false) (mkMachine 7 "001" true true))
    as [Hlow _].
  - vm_compute. reflexivity.
  - vm_compute. reflexivity.
  - vm_compute. reflexivity.
  - vm_compute. reflexivity.
  - assert (true = false) by (apply Hlow; simpl; lia). done.
Qed.

Section LatchProperties.
Variable script : nat -> IEvent -> list Action.

(** C4, amended. With subscribers of the four classes registered, a delivery
    ends and clears no latch: every machine keeps its place and its id, a
    latch that was set is still set, the delivery of a refill leaves every
    [lowStockWarningFired] as it was, and the delivery of a sale leaves
    every [stockLevelOkFired] as it was. So a refill that carries a stock up
    across the threshold leaves the low-stock latch with the value it had,
    and a sale that carries a stock down across it leaves the stock-ok latch
    with the value it had. *)
Theorem crossing_keeps_opposite_latch (fuel : nat) (e : IEvent) (w : World) :
  app_only w ->
  done_after
    (fun w' =>
       forall i m, machines w !! i = Some m ->
         exists m', machines w' !! i = Some m' /\ id m' = id m /\
           (lowStockWarningFired m = true -> lowStockWarningFired m' = true) /\
           (stockLevelOkFired m = true -> stockLevelOkFired m' = true) /\
           (getRefillQuantity e ≠ None ->
            lowStockWarningFired m' = lowStockWarningFired m) /\
           (getSoldQuantity e ≠ None ->
            stockLevelOkFired m' = stockLevelOkFired m))
    (publish script (S (S fuel)) None e w).
Proof.
  intros Happ.
  eapply done_after_mono; [|by apply (publish_app script fuel None e w)].
  intros w' Hs i m Hm.
  destruct (steps_latches_kept _ _ _ Hs) as [Eid Hkept].
  destruct (fmap_lookup_is_Some id _ _ _ _ Eid Hm) as [m' Hm'].
  exists m'. split; [done|]. split; [by eapply fmap_lookup_eq|].
  split; [apply (Hkept LowStock _ _ _ Hm Hm')|].
  split; [apply (Hkept StockOk _ _ _ Hm Hm')|].
  split; intros He.
  - assert (latch_unchanged LowStock w w') as Hu
      by (eapply steps_latch_unchanged; [|done]; by destruct e).
    by apply (fmap_lookup_eq (fired LowStock) _ _ _ _ _ Hu Hm Hm').
  - assert (latch_unchanged StockOk w w') as Hu
      by (eapply steps_latch_unchanged; [|done]; by destruct e).
    by apply (fmap_lookup_eq (fired StockOk) _ _ _ _ _ Hu Hm Hm').
Qed.

(** C10. A run of [publish], [subscribe] and [unsubscribe] calls that
    registers subscribers of the four classes only, from machines just
    created and an empty registry, goes through ([ops1] then [ops2] both
    give a state); a machine found with a latch set after [ops1] is found at
    the same place, with the same id and that latch still set, after
    [ops2]; and over the whole run the low-stock subscribers have published
    at most one warning, and the stock-ok subscribers at most one StockOk,
    per machine id. *)
Theorem latches_never_reset (fuel : nat) (ids : list string) (ops1 ops2 : list Op) :
  Forall (fun op => app_op op = true) (ops1 ++ ops2) ->
  exists w1 w2,
    exec script (S (S fuel)) ops1 (empty_world (new_Machine <$> ids)) = Some w1 /\
    exec script (S (S fuel)) ops2 w1 = Some w2 /\
    (forall i m1, machines w1 !! i = Some m1 ->
       exists m2, machines w2 !! i = Some m2 /\ id m2 = id m1 /\
         (lowStockWarningFired m1 = true -> lowStockWarningFired m2 = true) /\
         (stockLevelOkFired m1 = true -> stockLevelOkFired m2 = true)) /\
    (forall s,
       notifications LowStock s (trace w2) <= 1 /\
       notifications StockOk s (trace w2) <= 1).
Proof.
  intros Hops. apply Forall_app in Hops as [Hops1 Hops2].
  set (w0 := empty_world (new_Machine <$> ids)).
  assert (app_only w0) as Happ0 by constructor.
  destruct (exec_run_kept script fuel ops1 w0 Hops1 Happ0) as (w1 & E1 & K1 & O1 & A1).
  destruct (exec_run_kept script fuel ops2 w1 Hops2 (A1 Happ0)) as (w2 & E2 & K2 & O2 & A2).
  exists w1, w2. split; [done|]. split; [done|]. split.
  - intros i m1 Hm1. destruct K2 as [Eid Hkept].
    destruct (fmap_lookup_is_Some id _ _ _ _ Eid Hm1) as [m2 Hm2].
    exists m2. split; [done|]. split; [by eapply fmap_lookup_eq|].
    split; [apply (Hkept LowStock _ _ _ Hm1 Hm2) | apply (Hkept StockOk _ _ _ Hm1 Hm2)].
  - assert (forall L, notified_once L w2) as Hinv.
    { intros L. apply O2, O1. intros s. unfold notifications. simpl. lia. }
    intros s. split; (etrans; [apply Hinv | apply fired_count_le_1]).
Qed.

End LatchProperties.

(** ** The sale handler and the low-stock latch *)

(** C1. In the program's own wiring, two sales on machine "001" (8, then 1)
    bring its stock to 2 and then to 1, and [publish] is called with a
    LowStockWarning for "001" after each of them: the second sale, made while
    the stock is already below 3 and before any refill, warns again. *)
Theorem second_sale_warns_again :
  exists w,
    exec no_script 2
      [Publish (MachineSaleEvent 8 "001"); Publish (MachineSaleEvent 1 "001")]
      program_world = Some w /\
    stockLevel <$> machines w = [1; 10; 10]%Z /\
    published_events (trace w) =
      [MachineSaleEvent 8 "001"; LowStockWarningEvent "001";
       MachineSaleEvent 1 "001"; LowStockWarningEvent "001"].
Proof. eexists. split; [vm_compute; reflexivity|]. split; reflexivity. Qed.

(** C2. Two evaluations of the sale handling. In the wiring of section 4.3,
    after the sale of 8 the stock of "001" is 2 and its low-stock latch is
    set; on a further sale of 1, [MachineSaleSubscriber.handle] brings the
    stock to 1 and calls [publish] with a LowStockWarning for "001" all the
    same. In the program's own wiring, the sale of 8 publishes the warning
    and leaves the latch of every machine unset. *)
Theorem sale_handler_ignores_latch :
  (exists w,
     machines after_sale_of_8 !! 0 = Some (mkMachine 2 "001" true false) /\
     MachineSaleSubscriber.handle (publish no_script 1 (Some saleSubscriber))
       (MachineSaleEvent 1 "001") after_sale_of_8 = Ok w /\
     machines w !! 0 = Some (mkMachine 1 "001" true false) /\
     trace w = trace after_sale_of_8 ++
               [Published (Some saleSubscriber) (LowStockWarningEvent "001")]) /\
  (exists w,
     exec no_script 2 [Publish (MachineSaleEvent 8 "001")] program_world = Some w /\
     published_events (trace w) = [MachineSaleEvent 8 "001"; LowStockWarningEvent "001"] /\
     lowStockWarningFired <$> machines w = [false; false; false]).
Proof.
  split.
  - eexists. split; [vm_compute; reflexivity|].
    split; [vm_compute; reflexivity|]. split; reflexivity.
  - eexists. split; [vm_compute; reflexivity|]. split; reflexivity.
Qed.

(** ** Instances at concrete inputs *)

(** The pass that [Custom 0] rewires still goes to [Custom 0] and [Custom 1]
    and to nobody else; the next one goes to [Custom 1] and [Custom 2]. *)
Example rewiring_pass :
  exists w,
    publish rewiring_script 2 None (MachineSaleEvent 1 "001") rewiring_world = Ok w /\
    trace w = [Published None (MachineSaleEvent 1 "001");
               Handled (Custom 0) (MachineSaleEvent 1 "001");
               Handled (Custom 1) (MachineSaleEvent 1 "001")] /\
    registered "sale" w = [Custom 1; Custom 2].
Proof. eexists. split; [vm_compute; reflexivity|]. split; reflexivity. Qed.

Lemma program_world_own :
  program_world =
  subscribe_own "stock_level_ok" stockLevelOkSubscriber
    (subscribe_own "low_stock_warning" lowStockWarningSubscriber
       (subscribe_own "refill" refillSubscriber
          (subscribe_own "sale" saleSubscriber
             (empty_world [new_Machine "001"; new_Machine "002"; new_Machine "003"])))).
Proof. reflexivity. Qed.

Lemma rewiring_world_own :
  rewiring_world =
  subscribe_own "sale" (Custom 1) (subscribe_own "sale" (Custom 0) (empty_world [])).
Proof. reflexivity. Qed.

Lemma wf_program_world : wf program_world.
Proof. rewrite program_world_own. repeat apply wf_subscribe. apply wf_empty_world. Qed.

Lemma wf_rewiring_world : wf rewiring_world.
Proof. rewrite rewiring_world_own. repeat apply wf_subscribe. apply wf_empty_world. Qed.

Lemma publish_delivers_snapshot_witness :
  wf rewiring_world /\
  publish rewiring_script 2 None (MachineSaleEvent 1 "001") rewiring_world =
  publish_snapshot rewiring_script 2 None (MachineSaleEvent 1 "001") rewiring_world.
Proof.
  split; [exact wf_rewiring_world|].
  apply (proj1 (proj2 (publish_delivers_snapshot rewiring_script rewiring_world
                         wf_rewiring_world))).
Defined.

Lemma publish_no_subscriber_witness :
  registered (type (LowStockWarningEvent "001")) program_world = [] /\
  exists w',
    publish no_script 1 None (LowStockWarningEvent "001") program_world = Ok w' /\
    machines w' = machines program_world /\
    subscribers w' = subscribers program_world /\
    heap w' = heap program_world /\
    trace w' = trace program_world ++ [Published None (LowStockWarningEvent "001")].
Proof.
  split; [reflexivity|].
  apply (publish_no_subscriber no_script 0 None (LowStockWarningEvent "001")
           program_world).
  reflexivity.
Defined.

Lemma refill_publishes_stock_ok_on_crossing_witness :
  machineIndexOf (MachineRefillEvent 5 "001") after_sale_of_8 = Some 0 /\
  machines after_sale_of_8 !! 0 = Some (mkMachine 2 "001" true false) /\
  safe_integer 2 /\ safe_integer 5 /\ safe_integer (2 + 5) /\
  MachineRefillSubscriber.handle (publish no_script 1 (Some refillSubscriber))
    (MachineRefillEvent 5 "001") after_sale_of_8 =
  publish no_script 1 (Some refillSubscriber) (StockLevelOkEvent "001")
    (set_machines (<[0 := mkMachine 7 "001" true false]> (machines after_sale_of_8))
       after_sale_of_8).
Proof.
  assert (machineIndexOf (MachineRefillEvent 5 "001") after_sale_of_8 = Some 0) as Hi
    by (vm_compute; reflexivity).
  assert (machines after_sale_of_8 !! 0 = Some (mkMachine 2 "001" true false)) as Hm
    by (vm_compute; reflexivity).
  assert (safe_integer 2 /\ safe_integer 5 /\ safe_integer (2 + 5)) as (S1 & S2 & S3)
    by (unfold safe_integer, MAX_SAFE_INTEGER; lia).
  split; [exact Hi|]. split; [exact Hm|].
  split; [exact S1|]. split; [exact S2|]. split; [exact S3|].
  apply (proj1 (refill_publishes_stock_ok_on_crossing
                  (publish no_script 1 (Some refillSubscriber)) 5 "001"
                  after_sale_of_8 0 (mkMachine 2 "001" true false) Hi Hm S1 S2 S3)).
  simpl. lia.
Defined.

Lemma unknown_machine_is_dropped_witness :
  Forall (fun m => id m ≠ machineId (MachineSaleEvent 1 "999")) (machines program_world) /\
  MachineSaleSubscriber.handle (publish no_script 1 (Some saleSubscriber))
    (MachineSaleEvent 1 "999") program_world = Ok program_world.
Proof.
  assert (Forall (fun m => id m ≠ machineId (MachineSaleEvent 1 "999"))
            (machines program_world)) as H
    by (repeat constructor; discriminate).
  split; [exact H|].
  apply (proj1 (unknown_machine_is_dropped no_script (MachineSaleEvent 1 "999")
                  program_world H)).
Defined.

Lemma publish_propagates_exception_witness :
  registered "sale" throwing_world = [saleSubscriber] ++ Custom 0 :: [Custom 1] /\
  publish throwing_script 2 None (MachineSaleEvent 1 "001") throwing_world =
  Throw (Raised 7) (record (Handled (Custom 0) (MachineSaleEvent 1 "001")) before_throw).
Proof.
  split; [reflexivity|].
  apply (proj1 (publish_propagates_exception throwing_script 1 None
                  (MachineSaleEvent 1 "001") throwing_world)
           [saleSubscriber] (Custom 0) [Custom 1] (Raised 7) before_throw).
  - reflexivity.
  - vm_compute. reflexivity.
  - reflexivity.
Defined.

Lemma app_only_after_sale_of_8 : app_only after_sale_of_8.
Proof. vm_compute. repeat constructor. Qed.

Lemma done_after_Ok (P : World -> Prop) o w : done_after P o -> o = Ok w -> P w.
Proof. by intros H ->. Qed.

Lemma refill_after_sale_of_8 :
  publish no_script 2 None (MachineRefillEvent 5 "001") after_sale_of_8
  = Ok then_refill_of_5.
Proof. vm_compute. reflexivity. Qed.

Lemma machine_after_sale_of_8 :
  machines after_sale_of_8 !! 0 = Some (mkMachine 2 "001" true false).
Proof. vm_compute. reflexivity. Qed.

Lemma crossing_keeps_opposite_latch_witness :
  app_only after_sale_of_8 /\
  exists m',
    machines then_refill_of_5 !! 0 = Some m' /\
    lowStockWarningFired m' = true.
Proof.
  split; [exact app_only_after_sale_of_8|].
  destruct (done_after_Ok _ _ _
              (crossing_keeps_opposite_latch no_script 0 (MachineRefillEvent 5 "001")
                 after_sale_of_8 app_only_after_sale_of_8)
              refill_after_sale_of_8 0 _ machine_after_sale_of_8)
    as (m' & Hm' & _ & Hlow & _).
  exists m'. split; [exact Hm' | exact (Hlow eq_refl)].
Defined.

Lemma latches_never_reset_witness :
  Forall (fun op => app_op op = true)
    ([Subscribe "sale" saleSubscriber; Subscribe "sale" lowStockWarningSubscriber;
      Publish (MachineSaleEvent 8 "001")]
     ++ [Publish (MachineRefillEvent 5 "001"); Publish (MachineSaleEvent 5 "001")]) /\
  exists w1 w2,
    exec no_script 2
      [Subscribe "sale" saleSubscriber; Subscribe "sale" lowStockWarningSubscriber;
       Publish (MachineSaleEvent 8 "001")]
      (empty_world (new_Machine <$> ["001"])) = Some w1 /\
    exec no_script 2
      [Publish (MachineRefillEvent 5 "001"); Publish (MachineSaleEvent 5 "001")]
      w1 = Some w2 /\
    (forall i m1, machines w1 !! i = Some m1 ->
       exists m2, machines w2 !! i = Some m2 /\ id m2 = id m1 /\
         (lowStockWarningFired m1 = true -> lowStockWarningFired m2 = true) /\
         (stockLevelOkFired m1 = true -> stockLevelOkFired m2 = true)) /\
    (forall s,
       notifications LowStock s (trace w2) <= 1 /\
       notifications StockOk s (trace w2) <= 1).
Proof.
  assert (Forall (fun op => app_op op = true)
            ([Subscribe "sale" saleSubscriber; Subscribe "sale" lowStockWarningSubscriber;
              Publish (MachineSaleEvent 8 "001")]
             ++ [Publish (MachineRefillEvent 5 "001"); Publish (MachineSaleEvent 5 "001")]))
    as H by (repeat constructor).
  split; [exact H|].
  exact (latches_never_reset no_script 0 ["001"] _ _ H).
Defined.

(** * Further properties of the code *)

(** ** The handlers, one by one *)

Lemma low_handle_found publish (q : Z) (s : string) (w : World) (i : nat) (m : Machine) :
  machineIndexOf (MachineSaleEvent q s) w = Some i ->
  machines w !! i = Some m ->
  LowStockWarningSubscriber.handle publish (MachineSaleEvent q s) w =
  if (stockLevel m <? 3)%Z && negb (lowStockWarningFired m)
  then publish (LowStockWarningEvent (id m))
         (set_machines (<[i := setLowStockWarningFired true m]> (machines w)) w)
  else Ok w.
Proof.
  intros Hi Hm. unfold LowStockWarningSubscriber.handle. rewrite Hi.
  unfold machineAt at 1. rewrite Hm. unfold isLowStockWarningFired.
  destruct (_ && _); [|done].
  unfold machineAt, update_machine.
  rewrite (alter_found _ _ _ _ Hm). cbn [machines set_machines].
  by rewrite (lookup_found _ _ _ _ Hm).
Qed.

Lemma ok_handle_found publish (q : Z) (s : string) (w : World) (i : nat) (m : Machine) :
  machineIndexOf (MachineRefillEvent q s) w = Some i ->
  machines w !! i = Some m ->
  StockLevelOkSubscriber.handle publish (MachineRefillEvent q s) w =
  if (3 <=? stockLevel m)%Z && negb (stockLevelOkFired m)
  then publish (StockLevelOkEvent (id m))
         (set_machines (<[i := setStockLevelOkFired true m]> (machines w)) w)
  else Ok w.
Proof.
  intros Hi Hm. unfold StockLevelOkSubscriber.handle. rewrite Hi.
  unfold machineAt at 1. rewrite Hm. unfold isStockLevelOkFired.
  destruct (_ && _); [|done].
  unfold machineAt, update_machine.
  rewrite (alter_found _ _ _ _ Hm). cbn [machines set_machines].
  by rewrite (lookup_found _ _ _ _ Hm).
Qed.

(** X1. For a sale of [q] on the machine [m] that [findIndex] selects, the
    stock, [q] and their difference being safe integers,
    [MachineSaleSubscriber.handle] leaves the state [w'] in which that
    machine's stock is [stockLevel m - q] and nothing else differs (no latch
    is read or written, and [q] is not validated), and it calls [publish]
    with the LowStockWarning of [m], in [w'], exactly when the new stock is
    below 3, whatever the stock was before. *)
Theorem sale_publishes_warning_below_threshold
    (publish : IEvent -> World -> Outcome)
    (q : Z) (s : string) (w : World) (i : nat) (m : Machine) :
  machineIndexOf (MachineSaleEvent q s) w = Some i ->
  machines w !! i = Some m ->
  safe_integer (stockLevel m) ->
  safe_integer q ->
  safe_integer (stockLevel m - q) ->
  let w' := set_machines (<[i := setStockLevel (stockLevel m - q) m]> (machines w)) w in
  let result := MachineSaleSubscriber.handle publish (MachineSaleEvent q s) w in
  ((stockLevel m - q < 3)%Z -> result = publish (LowStockWarningEvent (id m)) w') /\
  ((3 <= stockLevel m - q)%Z -> result = Ok w').
Proof.
  intros Hi Hm _ _ _ w' result. subst result.
  rewrite (sale_handle_found publish q s w i m Hi Hm). fold w'.
  destruct (Z.ltb_spec (stockLevel m - q) 3); split; intros; try done; lia.
Qed.

(** X2. [LowStockWarningSubscriber.handle] on a sale for the machine [m] that
    [findIndex] selects: when the stock of [m] is below 3 and its
    [lowStockWarningFired] is false, it sets that flag (and nothing else) and
    then calls [publish] with the LowStockWarning of [m]; otherwise it
    returns with the state unchanged. It never changes a stock level. On an
    event that is not a [MachineSaleEvent] it returns with the state
    unchanged, whatever the state. *)
Theorem low_stock_subscriber_fires_when_latch_idle
    (publish : IEvent -> World -> Outcome)
    (q : Z) (s : string) (w : World) (i : nat) (m : Machine) :
  machineIndexOf (MachineSaleEvent q s) w = Some i ->
  machines w !! i = Some m ->
  let w' := set_machines (<[i := setLowStockWarningFired true m]> (machines w)) w in
  let result := LowStockWarningSubscriber.handle publish (MachineSaleEvent q s) w in
  ((stockLevel m < 3)%Z /\ lowStockWarningFired m = false ->
   result = publish (LowStockWarningEvent (id m)) w') /\
  (~ ((stockLevel m < 3)%Z /\ lowStockWarningFired m = false) -> result = Ok w) /\
  stockLevel <$> machines w' = stockLevel <$> machines w /\
  (forall e, getSoldQuantity e = None ->
             LowStockWarningSubscriber.handle publish e w = Ok w).
Proof.
  intros Hi Hm w' result. subst result.
  rewrite (low_handle_found publish q s w i m Hi Hm). fold w'.
  split; [|split; [|split]].
  - intros [Hlt ->]. by apply Z.ltb_lt in Hlt as ->.
  - intros Hn. destruct (Z.ltb_spec (stockLevel m) 3), (lowStockWarningFired m);
      simpl; try done. exfalso. by apply Hn.
  - subst w'. simpl. rewrite <- (alter_found (setLowStockWarningFired true) _ _ _ Hm).
    by apply fmap_alter_same.
  - intros e He. by destruct e.
Qed.

(** X3. [StockLevelOkSubscriber.handle] on a refill for the machine [m] that
    [findIndex] selects: when the stock of [m] is at least 3 and its
    [stockLevelOkFired] is false, it sets that flag (and nothing else) and
    then calls [publish] with the StockOk of [m], whether or not the stock
    was ever below 3; otherwise it returns with the state unchanged. It
    never changes a stock level. On an event that is not a
    [MachineRefillEvent] it returns with the state unchanged. *)
Theorem stock_ok_subscriber_fires_when_latch_idle
    (publish : IEvent -> World -> Outcome)
    (q : Z) (s : string) (w : World) (i : nat) (m : Machine) :
  machineIndexOf (MachineRefillEvent q s) w = Some i ->
  machines w !! i = Some m ->
  let w' := set_machines (<[i := setStockLevelOkFired true m]> (machines w)) w in
  let result := StockLevelOkSubscriber.handle publish (MachineRefillEvent q s) w in
  ((3 <= stockLevel m)%Z /\ stockLevelOkFired m = false ->
   result = publish (StockLevelOkEvent (id m)) w') /\
  (~ ((3 <= stockLevel m)%Z /\ stockLevelOkFired m = false) -> result = Ok w) /\
  stockLevel <$> machines w' = stockLevel <$> machines w /\
  (forall e, getRefillQuantity e = None ->
             StockLevelOkSubscriber.handle publish e w = Ok w).
Proof.
  intros Hi Hm w' result. subst result.
  rewrite (ok_handle_found publish q s w i m Hi Hm). fold w'.
  split; [|split; [|split]].
  - intros [Hle ->]. by apply Z.leb_le in Hle as ->.
  - intros Hn. destruct (Z.leb_spec 3 (stockLevel m)), (stockLevelOkFired m);
      simpl; try done. exfalso. by apply Hn.
  - subst w'. simpl. rewrite <- (alter_found (setStockLevelOkFired true) _ _ _ Hm).
    by apply fmap_alter_same.
  - intros e He. by destruct e.
Qed.

(** X4. The sale and refill subscribers do not test the class of the event.
    Handed an event of another class (which [subscribe] permits, since it
    takes any kind) whose machine exists, [MachineSaleSubscriber.handle]
    throws a [TypeError] at [event.getSoldQuantity()], and
    [MachineRefillSubscriber.handle] at [event.getRefillQuantity()], in both
    cases before any change of the state. *)
Theorem wrong_event_class_throws
    (publish : IEvent -> World -> Outcome) (e : IEvent) (w : World) (i : nat) :
  machineIndexOf e w = Some i ->
  (getSoldQuantity e = None ->
   MachineSaleSubscriber.handle publish e w = Throw TypeError w) /\
  (getRefillQuantity e = None ->
   MachineRefillSubscriber.handle publish e w = Throw TypeError w).
Proof.
  intros Hi. split; intros He.
  - unfold MachineSaleSubscriber.handle. by rewrite Hi, He.
  - unfold MachineRefillSubscriber.handle. rewrite Hi.
    destruct (findIndex_Some _ _ _ Hi) as (m & Hm & _).
    unfold machineAt. by rewrite Hm, He.
Qed.

(** ** The registry under [subscribe] and [unsubscribe] *)

Lemma filter_ne_singleton (h : ISubscriber) :
  filter (fun s => s ≠ h) [h] = [].
Proof. by rewrite filter_cons_False by (by intros H; apply H). Qed.

Lemma filter_ne_comm (h1 h2 : ISubscriber) (l : list ISubscriber) :
  filter (fun s => s ≠ h1) (filter (fun s => s ≠ h2) l) =
  filter (fun s => s ≠ h2) (filter (fun s => s ≠ h1) l).
Proof.
  rewrite !list_filter_filter. apply list_filter_iff. intros x. tauto.
Qed.

Lemma filter_ne_idemp (h : ISubscriber) (l : list ISubscriber) :
  filter (fun s => s ≠ h) (filter (fun s => s ≠ h) l) = filter (fun s => s ≠ h) l.
Proof.
  rewrite list_filter_filter. apply list_filter_iff. intros x. tauto.
Qed.

(** X5. For a kind that is not an inherited name, [subscribe] does not
    de-duplicate and [unsubscribe] removes every occurrence: subscribing a
    handler twice registers it twice; unsubscribing it right after
    subscribing it leaves the kind's earlier sequence without any occurrence
    of it, so the pair is a round trip, for every kind, exactly when the
    handler was not registered for that kind before. All the calls return
    normally. *)
Theorem subscribe_then_unsubscribe (kind : string) (handler : ISubscriber) (w : World) :
  wf w ->
  inherited kind = false ->
  exists w1 w2 w0,
    subscribe kind handler w = Ok w1 /\
    subscribe kind handler w1 = Ok w2 /\
    unsubscribe kind handler w1 = Ok w0 /\
    registered kind w2 = registered kind w ++ [handler; handler] /\
    registered kind w0 = filter (fun s => s ≠ handler) (registered kind w) /\
    (handler ∉ registered kind w ->
     forall kind', registered kind' w0 = registered kind' w) /\
    (handler ∈ registered kind w -> registered kind w0 ≠ registered kind w).
Proof.
  intros Hwf Hkind.
  exists (subscribe_own kind handler w),
         (subscribe_own kind handler (subscribe_own kind handler w)),
         (unsubscribe_own kind handler (subscribe_own kind handler w)).
  split; [by apply subscribe_returns|].
  split; [by apply subscribe_returns|].
  split; [by apply unsubscribe_returns|].
  assert (wf (subscribe_own kind handler w)) as Hwf' by by apply wf_subscribe.
  assert (registered kind (unsubscribe_own kind handler (subscribe_own kind handler w))
          = filter (fun s => s ≠ handler) (registered kind w)) as Hround.
  { rewrite registered_unsubscribe_eq, registered_subscribe_eq by done.
    by rewrite filter_app, filter_ne_singleton, app_nil_r. }
  split; [|split; [done|split]].
  - rewrite !registered_subscribe_eq by done. by rewrite <- app_assoc.
  - intros Hnot kind'. destruct (decide (kind' = kind)) as [->|Hne].
    + rewrite Hround. by apply filter_ne_absent.
    + rewrite registered_unsubscribe_ne, registered_subscribe_ne by done. done.
  - intros Hin Heq. rewrite Hround in Heq. rewrite <- Heq in Hin.
    by apply filter_ne_gone in Hin.
Qed.

(** X6. For kinds that are not inherited names, [unsubscribe] is idempotent
    and two [unsubscribe] calls can be made in either order: all the calls
    return normally and, for every kind, the registered sequence is the same
    after one call as after two equal calls, and the same after
    [unsubscribe(k1, h1); unsubscribe(k2, h2)] as after the calls in the
    other order. *)
Theorem unsubscribe_idempotent_and_commutes
    (k1 k2 : string) (h1 h2 : ISubscriber) (w : World) :
  wf w ->
  inherited k1 = false ->
  inherited k2 = false ->
  exists w1 w11 w2 w12 w21,
    unsubscribe k1 h1 w = Ok w1 /\
    unsubscribe k1 h1 w1 = Ok w11 /\
    unsubscribe k2 h2 w = Ok w2 /\
    unsubscribe k2 h2 w1 = Ok w12 /\
    unsubscribe k1 h1 w2 = Ok w21 /\
    (forall kind, registered kind w11 = registered kind w1) /\
    (forall kind, registered kind w12 = registered kind w21).
Proof.
  intros Hwf Hk1 Hk2.
  exists (unsubscribe_own k1 h1 w), (unsubscribe_own k1 h1 (unsubscribe_own k1 h1 w)),
         (unsubscribe_own k2 h2 w), (unsubscribe_own k2 h2 (unsubscribe_own k1 h1 w)),
         (unsubscribe_own k1 h1 (unsubscribe_own k2 h2 w)).
  do 5 (split; [by apply unsubscribe_returns|]).
  assert (wf (unsubscribe_own k1 h1 w)) as Hwf1 by by apply wf_unsubscribe.
  assert (wf (unsubscribe_own k2 h2 w)) as Hwf2 by by apply wf_unsubscribe.
  split; intros kind.
  - destruct (decide (kind = k1)) as [->|Hne].
    + rewrite !registered_unsubscribe_eq. apply filter_ne_idemp.
    + by rewrite !registered_unsubscribe_ne.
  - destruct (decide (kind = k1)) as [->|Hne1], (decide (k1 = k2)) as [<-|Hne12].
    + rewrite !registered_unsubscribe_eq. apply filter_ne_comm.
    + rewrite (registered_unsubscribe_ne k2 k1 h2 (unsubscribe_own k1 h1 w)) by done.
      rewrite !registered_unsubscribe_eq.
      by rewrite (registered_unsubscribe_ne k2 k1 h2 w) by done.
    + by rewrite !registered_unsubscribe_ne.
    + destruct (decide (kind = k2)) as [->|Hne2].
      * rewrite (registered_unsubscribe_ne k1 k2 h1 (unsubscribe_own k2 h2 w)) by done.
        rewrite !registered_unsubscribe_eq.
        by rewrite (registered_unsubscribe_ne k1 k2 h1 w) by done.
      * by rewrite !registered_unsubscribe_ne.
Qed.

Lemma exec_wf script fuel ops : forall w w',
  wf w -> exec script fuel ops w = Some w' -> wf w'.
Proof.
  induction ops as [|op ops IH]; intros w w' Hwf; cbn [exec].
  - by intros [= <-].
  - destruct (exec_op script fuel op w) as [w1|] eqn:E1; [|done]. simpl.
    apply IH. destruct op as [e|k h|k h]; cbn [exec_op] in E1.
    + pose proof (publish_stable wf_kept script fuel None e w) as H.
      destruct (publish script fuel None e w) as [w2|x w2|]; [| |done];
        injection E1 as <-; by apply H.
    + pose proof (subscribe_after wf k h w Hwf (wf_subscribe k h w Hwf)) as H.
      destruct (subscribe k h w) as [w2|x w2|]; [| |done]; by injection E1 as <-.
    + pose proof (unsubscribe_after wf k h w Hwf (wf_unsubscribe k h w Hwf)) as H.
      destruct (unsubscribe k h w) as [w2|x w2|]; [| |done]; by injection E1 as <-.
Qed.

(** X7. In every state that a run reaches from a new service, whatever is
    subscribed and whatever the handlers subscribe, unsubscribe, publish or
    throw during deliveries, each kind has an array of its own: [subscribe]
    and [unsubscribe] on one kind, whether they return or throw, leave the
    sequence of every other kind as it was. *)
Theorem kinds_stay_separate (script : nat -> IEvent -> list Action) (fuel : nat)
    (ops : list Op) (ms : list Machine) (w : World) :
  exec script fuel ops (empty_world ms) = Some w ->
  wf w /\
  forall kind handler kind', kind' ≠ kind ->
    done_after (fun w' => registered kind' w' = registered kind' w)
      (subscribe kind handler w) /\
    done_after (fun w' => registered kind' w' = registered kind' w)
      (unsubscribe kind handler w).
Proof.
  intros Hexec.
  assert (wf w) as Hwf by (eapply exec_wf; [apply wf_empty_world | done]).
  split; [done|]. intros kind handler kind' Hne. split.
  - rewrite subscribe_spec. destruct (_ && _); simpl; [done|].
    by apply registered_subscribe_ne.
  - rewrite unsubscribe_spec. destruct (_ && _); simpl; [done|].
    by apply registered_unsubscribe_ne.
Qed.

(** X12. For a kind that is not an inherited name,
    [unsubscribe(kind, handler)] returns normally and leaves for [kind] the
    registered sequence without the occurrences of [handler], compared by
    identity; it changes no other kind, no machine and no trace; on a kind
    with no registration it changes nothing at all, and when [handler] is
    not registered every kind keeps its sequence; afterwards a [publish] to
    [kind] runs its pass over a sequence in which [handler] does not occur,
    and when the handlers left are objects whose bodies only subscribe and
    unsubscribe, for kinds that are not inherited names, it returns normally
    and adds no invocation of [handler] to the trace. *)
Theorem unsubscribe_removes_handler (script : nat -> IEvent -> list Action)
    (kind : string) (handler : ISubscriber) (w : World) :
  wf w ->
  inherited kind = false ->
  exists w',
    unsubscribe kind handler w = Ok w' /\
    registered kind w' = filter (fun s => s ≠ handler) (registered kind w) /\
    (forall kind', kind' ≠ kind -> registered kind' w' = registered kind' w) /\
    machines w' = machines w /\ trace w' = trace w /\ wf w' /\
    (subscribers w !! kind = None -> w' = w) /\
    (handler ∉ registered kind w ->
       forall kind', registered kind' w' = registered kind' w) /\
    (forall fuel caller event, type event = kind ->
       (handler ∉ registered kind w') /\
       publish script (S fuel) caller event w' =
       deliver_snapshot
         (fun subscriber => handle script (publish script fuel) subscriber event)
         (registered kind w') (record (Published caller event) w')) /\
    (forall fuel caller event, type event = kind ->
       (forall o, Forall (fun a => registry_action a = true) (script o event)) ->
       Forall (fun h => is_app h = false) (registered kind w') ->
       exists w'' added,
         publish script (S fuel) caller event w' = Ok w'' /\
         trace w'' = trace w' ++ added /\
         forall e, Handled handler e ∉ added).
Proof.
  intros Hwf Hkind. exists (unsubscribe_own kind handler w).
  split; [by apply unsubscribe_returns|].
  assert (registered kind (unsubscribe_own kind handler w)
          = filter (fun s => s ≠ handler) (registered kind w)) as Heq
    by apply registered_unsubscribe_eq.
  repeat split.
  - done.
  - intros kind' Hne. by apply registered_unsubscribe_ne.
  - apply machines_unsubscribe.
  - apply trace_unsubscribe.
  - by apply wf_bound, wf_unsubscribe.
  - by apply wf_noalias, wf_unsubscribe.
  - intros E. unfold unsubscribe_own. by rewrite E.
  - intros Hnot kind'. destruct (decide (kind' = kind)) as [->|Hne].
    + rewrite Heq. by apply filter_ne_absent.
    + by apply registered_unsubscribe_ne.
  - rewrite Heq. apply filter_ne_gone.
  - subst kind. rewrite publish_eq_snapshot. done.
  - intros fuel caller event <- Hscript Hcustom. rewrite publish_eq_snapshot. simpl.
    set (w' := unsubscribe_own (type event) handler w) in *.
    change (registered (type event) (record (Published caller event) w'))
      with (registered (type event) w').
    destruct (deliver_registry_scripts script (publish script fuel) event
                (registered (type event) w') Hscript Hcustom
                (record (Published caller event) w')) as (w'' & -> & _ & Et).
    exists w'', (Published caller event ::
                 ((fun h => Handled h event) <$> registered (type event) w')).
    split; [done|]. split; [by rewrite Et; simpl; rewrite <- app_assoc|].
    intros e Hin. apply elem_of_cons in Hin as [?|Hin]; [done|].
    apply list_elem_of_fmap in Hin as (h & [= -> _] & Hin).
    rewrite Heq in Hin. by apply filter_ne_gone in Hin.
Qed.


(** ** Deliveries among the four classes *)

Lemma steps_only_handled_machines w w' :
  steps only_handled w w' -> machines w' = machines w.
Proof.
  assert (PreOrder (fun w w' : World => machines w' = machines w)) as Hpo
    by (split; [by intros ? | intros ? ? ? H1 H2; by rewrite H2]).
  apply (@steps_lift _ Hpo only_handled).
  intros lbl w1 w2 Ha Hst. by destruct Hst.
Qed.

Section InertNotifications.
Variable script : nat -> IEvent -> list Action.

(** X8. With subscribers of the four classes registered, a delivery changes
    neither the registry nor the store nor the place or id of a machine, and
    it ends within two levels of [publish]; the delivery of a
    LowStockWarning or StockOk event ends within one level and changes no
    machine at all, whichever of these subscribers receive it. *)
Theorem notifications_are_inert (w : World) :
  app_only w ->
  (forall fuel caller e, is_notification e = true ->
     done_after
       (fun w' => machines w' = machines w /\
                  subscribers w' = subscribers w /\ heap w' = heap w)
       (publish script (S fuel) caller e w)) /\
  (forall fuel e,
     done_after
       (fun w' => id <$> machines w' = id <$> machines w /\
                  subscribers w' = subscribers w /\ heap w' = heap w)
       (publish script (S (S fuel)) None e w)).
Proof.
  intros Happ. split.
  - intros fuel caller e He.
    eapply done_after_mono; [|by apply publish_notification].
    intros w' Hs. split; [by apply steps_only_handled_machines in Hs|].
    by apply steps_registry_unchanged in Hs as [? ?].
  - intros fuel e.
    eapply done_after_mono; [|by apply (publish_app script fuel None e w)].
    intros w' Hs. split; [by apply steps_latches_kept in Hs as [? _]|].
    by apply steps_registry_unchanged in Hs as [? ?].
Qed.
End InertNotifications.

(** ** The state that the wiring of the program builds *)

Lemma publish_unregistered script fuel c e w :
  registered (type e) w = [] ->
  publish script (S fuel) c e w = Ok (record (Published c e) w).
Proof.
  intros Hnone. rewrite publish_eq_snapshot. simpl.
  change (registered (type e) (record (Published c e) w)) with (registered (type e) w).
  by rewrite Hnone.
Qed.

Lemma registered_program k w :
  same_registry program_world w -> registered k w = registered k program_world.
Proof. intros [Es Eh]. by apply registered_same_registry. Qed.

Lemma publish_program_registry script fuel e w :
  same_registry program_world w ->
  exists w' added,
    publish script (S (S fuel)) None e w = Ok w' /\
    same_registry program_world w' /\
    machines w' = apply_event e (machines w) /\
    trace w' = trace w ++ added /\
    Forall (fun o => latch_subscriber_invoked o = false) added.
Proof.
  intros Hreg.
  assert (forall o, same_registry program_world (record o w)) as Hrec by (by intros o).
  rewrite publish_eq_snapshot. cbn [publish_snapshot].
  rewrite (registered_program _ _ (Hrec _)).
  destruct e as [q s|q s|s|s]; cbn [type].
  - change (registered "sale" program_world) with [saleSubscriber].
    cbn [deliver_snapshot andThen].
    destruct (machineIndexOf (MachineSaleEvent q s) w) as [i|] eqn:Hi.
    + destruct (findIndex_Some _ _ _ Hi) as (m & Hm & _).
      unfold handle, saleSubscriber.
      match goal with
      | |- context [MachineSaleSubscriber.handle ?pub _ ?w1] =>
        rewrite (sale_handle_found pub q s w1 i m Hi Hm)
      end.
      unfold apply_event. unfold machineIndexOf in Hi. cbn [machineId] in Hi.
      rewrite Hi, (alter_found _ _ _ _ Hm).
      destruct (_ <? _)%Z.
      * rewrite publish_unregistered by (by rewrite registered_program).
        eexists _, _. split; [done|]. split; [done|]. split; [done|].
        simpl. rewrite <- !app_assoc. split; [done|]. by repeat constructor.
      * eexists _, _. split; [done|]. split; [done|]. split; [done|].
        simpl. rewrite <- !app_assoc. split; [done|]. by repeat constructor.
    + rewrite handle_unknown_machine by done. cbn [andThen].
      unfold apply_event. unfold machineIndexOf in Hi. cbn [machineId] in Hi. rewrite Hi.
      eexists _, _. split; [done|]. split; [done|]. split; [done|].
      simpl. rewrite <- !app_assoc. split; [done|]. by repeat constructor.
  - change (registered "refill" program_world) with [refillSubscriber].
    cbn [deliver_snapshot andThen].
    destruct (machineIndexOf (MachineRefillEvent q s) w) as [i|] eqn:Hi.
    + destruct (findIndex_Some _ _ _ Hi) as (m & Hm & _).
      unfold handle, refillSubscriber.
      match goal with
      | |- context [MachineRefillSubscriber.handle ?pub _ ?w1] =>
        rewrite (refill_handle_found pub q s w1 i m Hi Hm)
      end.
      unfold apply_event. unfold machineIndexOf in Hi. cbn [machineId] in Hi.
      rewrite Hi, (alter_found _ _ _ _ Hm).
      destruct (_ && _).
      * rewrite publish_unregistered by (by rewrite registered_program).
        eexists _, _. split; [done|]. split; [done|]. split; [done|].
        simpl. rewrite <- !app_assoc. split; [done|]. by repeat constructor.
      * eexists _, _. split; [done|]. split; [done|]. split; [done|].
        simpl. rewrite <- !app_assoc. split; [done|]. by repeat constructor.
    + rewrite handle_unknown_machine by done. cbn [andThen].
      unfold apply_event. unfold machineIndexOf in Hi. cbn [machineId] in Hi. rewrite Hi.
      eexists _, _. split; [done|]. split; [done|]. split; [done|].
      simpl. rewrite <- !app_assoc. split; [done|]. by repeat constructor.
  - change (registered "lowStockWarning" program_world) with (@nil ISubscriber).
    eexists _, _. split; [done|]. split; [done|]. split; [done|].
    split; [done|]. by repeat constructor.
  - change (registered "stockLevelOk" program_world) with (@nil ISubscriber).
    eexists _, _. split; [done|]. split; [done|]. split; [done|].
    split; [done|]. by repeat constructor.
Qed.

Lemma apply_event_three e a b c :
  apply_event e (three_machines a b c) =
  three_machines (a + net_change "001" e) (b + net_change "002" e)
    (c + net_change "003" e).
Proof.
  destruct e as [q s|q s|s|s]; cbn [apply_event net_change];
    try (by rewrite !Z.add_0_r).
  - unfold three_machines. cbn [findIndex id].
    destruct (String.eqb_spec "001" s) as [<-|_]; [simpl; by rewrite !Z.add_0_r|].
    destruct (String.eqb_spec "002" s) as [<-|_]; [simpl; by rewrite !Z.add_0_r|].
    destruct (String.eqb_spec "003" s) as [<-|_]; simpl; by rewrite !Z.add_0_r.
  - unfold three_machines. cbn [findIndex id].
    destruct (String.eqb_spec "001" s) as [<-|_]; [simpl; by rewrite !Z.add_0_r|].
    destruct (String.eqb_spec "002" s) as [<-|_]; [simpl; by rewrite !Z.add_0_r|].
    destruct (String.eqb_spec "003" s) as [<-|_]; simpl; by rewrite !Z.add_0_r.
Qed.

Lemma exec_publish_program script fuel events : forall w a b c,
  same_registry program_world w ->
  machines w = three_machines a b c ->
  exists w' added,
    exec script (S (S fuel)) (Publish <$> events) w = Some w' /\
    same_registry program_world w' /\
    machines w' = three_machines (a + net_changes "001" events)
                    (b + net_changes "002" events) (c + net_changes "003" events) /\
    trace w' = trace w ++ added /\
    Forall (fun o => latch_subscriber_invoked o = false) added.
Proof.
  induction events as [|e events IH]; intros w a b c Hreg Hms.
  - exists w, []. cbn [fmap list_fmap exec net_changes foldr].
    rewrite !Z.add_0_r, app_nil_r. done.
  - destruct (publish_program_registry script fuel e w Hreg)
      as (w1 & added1 & E1 & Hreg1 & Hms1 & Ht1 & Hf1).
    rewrite Hms, apply_event_three in Hms1.
    destruct (IH w1 _ _ _ Hreg1 Hms1) as (w2 & added2 & E2 & Hreg2 & Hms2 & Ht2 & Hf2).
    exists w2, (added1 ++ added2). cbn [fmap list_fmap exec exec_op]. rewrite E1.
    split; [exact E2|]. split; [done|]. split.
    + rewrite Hms2. cbn [net_changes foldr]. by rewrite !Z.add_assoc.
    + split; [by rewrite Ht2, Ht1, app_assoc | by apply Forall_app].
Qed.

Lemma net_changes_volume s events :
  (Z.abs (net_changes s events) <= volume events)%Z.
Proof.
  induction events as [|e events IH]; [done|].
  cbn [net_changes volume foldr].
  fold (net_changes s events). fold (volume events).
  destruct e as [q s'|q s'|s'|s']; cbn [net_change];
    try destruct (String.eqb s s'); lia.
Qed.

(** X9. In the state that the wiring of the program builds, whatever events
    are then published by calls of [publish] on the service, and in whatever
    order, as long as their quantities add up, in absolute value, to no more
    than [MAX_SAFE_INTEGER - 10]: every [publish] returns normally; the
    stock of each machine is the safe integer 10 minus what the sales for
    its id sold plus what the refills for its id brought; and neither the
    low-stock subscriber nor the stock-ok subscriber is ever invoked (they
    are registered under "low_stock_warning" and "stock_level_ok", which
    are the [type()] of no event), so no latch of any machine is ever
    set. *)
Theorem program_stock_accounting (script : nat -> IEvent -> list Action)
    (fuel : nat) (events : list IEvent) :
  (10 + volume events <= MAX_SAFE_INTEGER)%Z ->
  exists w,
    exec script (S (S fuel)) (Publish <$> events) program_world = Some w /\
    machines w =
      [mkMachine (10 + net_changes "001" events) "001" false false;
       mkMachine (10 + net_changes "002" events) "002" false false;
       mkMachine (10 + net_changes "003" events) "003" false false] /\
    Forall (fun m => safe_integer (stockLevel m)) (machines w) /\
    Forall (fun o => latch_subscriber_invoked o = false) (trace w) /\
    forall e, exists w', publish script (S (S fuel)) None e w = Ok w'.
Proof.
  intros Hvol.
  destruct (exec_publish_program script fuel events program_world 10 10 10)
    as (w & added & E & Hreg & Hms & Ht & Hf); [done..|].
  exists w. split; [done|]. split; [done|]. split; [|split].
  - rewrite Hms.
    pose proof (net_changes_volume "001" events).
    pose proof (net_changes_volume "002" events).
    pose proof (net_changes_volume "003" events).
    unfold safe_integer, MAX_SAFE_INTEGER in *.
    repeat constructor; simpl; lia.
  - by rewrite Ht.
  - intros e. destruct (publish_program_registry script fuel e w Hreg) as (w' & ? & ? & _).
    by exists w'.
Qed.

(** ** The event source *)

Lemma randomMachine_range random :
  randomMachine random = "001" \/ randomMachine random = "002" \/
  randomMachine random = "003".
Proof. unfold randomMachine. destruct (less _ _); [|destruct (less _ _)]; auto. Qed.

(** X10. Whatever [Math.random] returns, [eventGenerator] yields a sale of 1
    or 2 or a refill of 3 or 5, for machine "001", "002" or "003": never a
    notification, never a quantity below 1, and always an id that
    [findIndex] finds among the machines of the program. *)
Theorem eventGenerator_range (random draw machine : QArith_base.Q) :
  let e := eventGenerator random draw machine in
  ((exists q, e = MachineSaleEvent q (machineId e) /\ (q = 1 \/ q = 2)%Z) \/
   (exists q, e = MachineRefillEvent q (machineId e) /\ (q = 3 \/ q = 5)%Z)) /\
  (machineId e = "001" \/ machineId e = "002" \/ machineId e = "003") /\
  exists i, machineIndexOf e program_world = Some i.
Proof.
  intros e. subst e. unfold eventGenerator.
  assert (forall e, (machineId e = "001" \/ machineId e = "002" \/ machineId e = "003") ->
                    exists i, machineIndexOf e program_world = Some i) as Hfound.
  { intros e [H|[H|H]]; unfold machineIndexOf; rewrite H;
      [by exists 0 | by exists 1 | by exists 2]. }
  destruct (less random _), (less draw _); cbn [machineId];
    (split; [|split; [apply randomMachine_range|apply Hfound, randomMachine_range]]);
    [left|left|right|right]; eexists; (split; [done|]); auto.
Qed.

Lemma net_change_generated s random draw machine :
  (-2 <= net_change s (eventGenerator random draw machine) <= 5)%Z.
Proof.
  unfold eventGenerator.
  destruct (less random _), (less draw _); cbn [net_change];
    destruct (String.eqb _ _); lia.
Qed.

Lemma net_changes_generated s draws :
  (- 2 * Z.of_nat (length draws) <= net_changes s (generate draws)
   <= 5 * Z.of_nat (length draws))%Z.
Proof.
  induction draws as [|d draws IH]; [done|].
  unfold generate in *. cbn [fmap list_fmap net_changes foldr length].
  fold (net_changes s ((fun d => eventGenerator d.1.1 d.1.2 d.2) <$> draws)).
  pose proof (net_change_generated s d.1.1 d.1.2 d.2). lia.
Qed.

(** X11. When events that come from [eventGenerator] are published by
    calls of [publish] on the service, in the state that the wiring of the
    program builds, every [publish] returns normally and, after [n] events
    (with [10 + 5 n] a safe integer), the stock of every machine is between
    [10 - 2 n] and [10 + 5 n]: after five, no stock is below 0 or above
    35. *)
Theorem generated_events_keep_stock_in_range (script : nat -> IEvent -> list Action)
    (fuel : nat) (draws : list (QArith_base.Q * QArith_base.Q * QArith_base.Q)) :
  (10 + 5 * Z.of_nat (length draws) <= MAX_SAFE_INTEGER)%Z ->
  exists w,
    exec script (S (S fuel)) (Publish <$> generate draws) program_world = Some w /\
    length (machines w) = 3 /\
    Forall (fun m => (10 - 2 * Z.of_nat (length draws) <= stockLevel m
                      <= 10 + 5 * Z.of_nat (length draws))%Z)
      (machines w) /\
    forall e, exists w', publish script (S (S fuel)) None e w = Ok w'.
Proof.
  intros _.
  destruct (exec_publish_program script fuel (generate draws) program_world 10 10 10)
    as (w & added & E & Hreg & Hms & _); [done..|].
  exists w. split; [done|]. rewrite Hms. split; [done|]. split.
  - pose proof (net_changes_generated "001" draws).
    pose proof (net_changes_generated "002" draws).
    pose proof (net_changes_generated "003" draws).
    repeat constructor; simpl; lia.
  - intros e. destruct (publish_program_registry script fuel e w Hreg) as (w' & ? & ? & _).
    by exists w'.
Qed.


(** ** Instances of the further properties *)

Lemma sale_publishes_warning_below_threshold_witness :
  machineIndexOf (MachineSaleEvent 8 "001") program_world = Some 0 /\
  machines program_world !! 0 = Some (new_Machine "001") /\
  safe_integer 10 /\ safe_integer 8 /\ safe_integer (10 - 8) /\
  MachineSaleSubscriber.handle (publish no_script 1 (Some saleSubscriber))
    (MachineSaleEvent 8 "001") program_world =
  publish no_script 1 (Some saleSubscriber) (LowStockWarningEvent "001")
    (set_machines (<[0 := mkMachine 2 "001" false false]> (machines program_world))
       program_world).
Proof.
  assert (safe_integer 10 /\ safe_integer 8 /\ safe_integer (10 - 8)) as (S1 & S2 & S3)
    by (unfold safe_integer, MAX_SAFE_INTEGER; lia).
  split; [reflexivity|]. split; [reflexivity|].
  split; [exact S1|]. split; [exact S2|]. split; [exact S3|].
  apply (proj1 (sale_publishes_warning_below_threshold
                  (publish no_script 1 (Some saleSubscriber)) 8 "001"
                  program_world 0 (new_Machine "001") eq_refl eq_refl S1 S2 S3)).
  simpl. lia.
Defined.

Lemma low_stock_subscriber_fires_when_latch_idle_witness :
  machineIndexOf (MachineSaleEvent 1 "001")
    (empty_world [mkMachine 2 "001" false false]) = Some 0 /\
  LowStockWarningSubscriber.handle (publish no_script 1 (Some lowStockWarningSubscriber))
    (MachineSaleEvent 1 "001") (empty_world [mkMachine 2 "001" false false]) =
  publish no_script 1 (Some lowStockWarningSubscriber) (LowStockWarningEvent "001")
    (empty_world [mkMachine 2 "001" true false]).
Proof.
  split; [reflexivity|].
  apply (proj1 (low_stock_subscriber_fires_when_latch_idle
                  (publish no_script 1 (Some lowStockWarningSubscriber)) 1 "001"
                  (empty_world [mkMachine 2 "001" false false]) 0
                  (mkMachine 2 "001" false false) eq_refl eq_refl)).
  simpl. split; [lia | reflexivity].
Defined.

Lemma stock_ok_subscriber_fires_when_latch_idle_witness :
  machineIndexOf (MachineRefillEvent 3 "001") (empty_world [new_Machine "001"]) = Some 0 /\
  StockLevelOkSubscriber.handle (publish no_script 1 (Some stockLevelOkSubscriber))
    (MachineRefillEvent 3 "001") (empty_world [new_Machine "001"]) =
  publish no_script 1 (Some stockLevelOkSubscriber) (StockLevelOkEvent "001")
    (empty_world [mkMachine 10 "001" false true]).
Proof.
  split; [reflexivity|].
  apply (proj1 (stock_ok_subscriber_fires_when_latch_idle
                  (publish no_script 1 (Some stockLevelOkSubscriber)) 3 "001"
                  (empty_world [new_Machine "001"]) 0 (new_Machine "001")
                  eq_refl eq_refl)).
  simpl. split; [lia | reflexivity].
Defined.

Lemma wrong_event_class_throws_witness :
  machineIndexOf (LowStockWarningEvent "001") program_world = Some 0 /\
  MachineSaleSubscriber.handle (publish no_script 1 (Some saleSubscriber))
    (LowStockWarningEvent "001") program_world = Throw TypeError program_world.
Proof.
  split; [reflexivity|].
  apply (proj1 (wrong_event_class_throws (publish no_script 1 (Some saleSubscriber))
                  (LowStockWarningEvent "001") program_world 0 eq_refl)).
  reflexivity.
Defined.

Lemma subscribe_then_unsubscribe_witness :
  wf program_world /\
  inherited "sale" = false /\
  exists w1 w2 w0,
    subscribe "sale" saleSubscriber program_world = Ok w1 /\
    subscribe "sale" saleSubscriber w1 = Ok w2 /\
    unsubscribe "sale" saleSubscriber w1 = Ok w0 /\
    registered "sale" w2 = registered "sale" program_world ++ [saleSubscriber; saleSubscriber] /\
    registered "sale" w0 = filter (fun s => s ≠ saleSubscriber) (registered "sale" program_world).
Proof.
  split; [exact wf_program_world|]. split; [reflexivity|].
  destruct (subscribe_then_unsubscribe "sale" saleSubscriber program_world
              wf_program_world eq_refl)
    as (w1 & w2 & w0 & E1 & E2 & E0 & H2 & H0 & _).
  exists w1, w2, w0. repeat split; assumption.
Defined.

Lemma unsubscribe_idempotent_and_commutes_witness :
  wf program_world /\
  inherited "sale" = false /\
  inherited "refill" = false /\
  exists w1 w2 w12 w21,
    unsubscribe "sale" saleSubscriber program_world = Ok w1 /\
    unsubscribe "refill" refillSubscriber program_world = Ok w2 /\
    unsubscribe "refill" refillSubscriber w1 = Ok w12 /\
    unsubscribe "sale" saleSubscriber w2 = Ok w21 /\
    forall kind, registered kind w12 = registered kind w21.
Proof.
  split; [exact wf_program_world|]. split; [reflexivity|]. split; [reflexivity|].
  destruct (unsubscribe_idempotent_and_commutes "sale" "refill" saleSubscriber
              refillSubscriber program_world wf_program_world eq_refl eq_refl)
    as (w1 & w11 & w2 & w12 & w21 & E1 & _ & E2 & E12 & E21 & _ & Hcomm).
  exists w1, w2, w12, w21. repeat split; assumption.
Defined.

Lemma unsubscribe_removes_handler_witness :
  wf program_world /\
  inherited "sale" = false /\
  exists w',
    unsubscribe "sale" saleSubscriber program_world = Ok w' /\
    registered "sale" w' =
    filter (fun s => s ≠ saleSubscriber) (registered "sale" program_world).
Proof.
  split; [exact wf_program_world|]. split; [reflexivity|].
  destruct (unsubscribe_removes_handler no_script "sale" saleSubscriber
              program_world wf_program_world eq_refl) as (w' & E & H & _).
  exists w'. split; assumption.
Defined.

Lemma kinds_stay_separate_witness :
  exec rewiring_script 2
    [Subscribe "sale" (Custom 0); Publish (MachineSaleEvent 1 "001")]
    (empty_world []) =
  Some (default (empty_world [])
          (exec rewiring_script 2
             [Subscribe "sale" (Custom 0); Publish (MachineSaleEvent 1 "001")]
             (empty_world []))) /\
  wf (default (empty_world [])
        (exec rewiring_script 2
           [Subscribe "sale" (Custom 0); Publish (MachineSaleEvent 1 "001")]
           (empty_world []))).
Proof.
  assert (exec rewiring_script 2
            [Subscribe "sale" (Custom 0); Publish (MachineSaleEvent 1 "001")]
            (empty_world []) =
          Some (default (empty_world [])
                  (exec rewiring_script 2
                     [Subscribe "sale" (Custom 0); Publish (MachineSaleEvent 1 "001")]
                     (empty_world [])))) as H by (vm_compute; reflexivity).
  split; [exact H|].
  apply (proj1 (kinds_stay_separate rewiring_script 2 _ [] _ H)).
Defined.

Lemma app_only_program_world : app_only program_world.
Proof. vm_compute. repeat constructor. Qed.

Lemma notifications_are_inert_witness :
  app_only program_world /\
  done_after
    (fun w' => machines w' = machines program_world /\
               subscribers w' = subscribers program_world /\
               heap w' = heap program_world)
    (publish no_script 1 (Some saleSubscriber) (LowStockWarningEvent "001") program_world).
Proof.
  split; [exact app_only_program_world|].
  apply (proj1 (notifications_are_inert no_script program_world app_only_program_world)).
  reflexivity.
Defined.

Lemma program_stock_accounting_witness :
  (10 + volume [MachineSaleEvent 8 "001"; MachineRefillEvent 5 "001"]
   <= MAX_SAFE_INTEGER)%Z /\
  exists w,
    exec no_script 2
      (Publish <$> [MachineSaleEvent 8 "001"; MachineRefillEvent 5 "001"])
      program_world = Some w /\
    machines w = [mkMachine 7 "001" false false; new_Machine "002"; new_Machine "003"].
Proof.
  assert (10 + volume [MachineSaleEvent 8 "001"; MachineRefillEvent 5 "001"]
          <= MAX_SAFE_INTEGER)%Z as Hvol
    by (unfold MAX_SAFE_INTEGER; simpl; lia).
  split; [exact Hvol|].
  destruct (program_stock_accounting no_script 0
              [MachineSaleEvent 8 "001"; MachineRefillEvent 5 "001"] Hvol)
    as (w & E & Hms & _).
  exists w. split; [exact E | exact Hms].
Defined.

Lemma generated_events_keep_stock_in_range_witness :
  (10 + 5 * Z.of_nat (length [(QArith_base.Qmake 0 1, QArith_base.Qmake 0 1,
                                QArith_base.Qmake 0 1)])
   <= MAX_SAFE_INTEGER)%Z /\
  exists w,
    exec no_script 2
      (Publish <$> generate [(QArith_base.Qmake 0 1, QArith_base.Qmake 0 1,
                              QArith_base.Qmake 0 1)])
      program_world = Some w /\
    length (machines w) = 3.
Proof.
  assert (10 + 5 * Z.of_nat (length [(QArith_base.Qmake 0 1, QArith_base.Qmake 0 1,
                                       QArith_base.Qmake 0 1)])
          <= MAX_SAFE_INTEGER)%Z as Hn
    by (unfold MAX_SAFE_INTEGER; simpl; lia).
  split; [exact Hn|].
  destruct (generated_events_keep_stock_in_range no_script 0
              [(QArith_base.Qmake 0 1, QArith_base.Qmake 0 1, QArith_base.Qmake 0 1)] Hn)
    as (w & E & Hlen & _).
  exists w. split; [exact E | exact Hlen].
Defined.
